(** * Space Invaders: the state-transition core of [spaceinvaders.ts]

    A shallow embedding of the reducer of the game ([reduceState]) and of
    what it calls: the vector class, the linear-congruential generator, the
    body generators, [renewState], [moveAliens], [handleCollisions], [tick]
    and [alienShoot].

    Numbers.  A JavaScript [number] that holds a coordinate, a speed, a time
    or the state of the generator is a rational ([Q]) kept in lowest terms,
    and its arithmetic is exact; counters and scores, which the program only
    ever moves by whole amounts, are integers ([Z]).  [Math.cos] and
    [Math.sin] are only ever called at 180 degrees, where they are taken at
    their exact values -1 and 0.

    Failure.  The one place of the reducer where JavaScript can throw is the
    property access on the selected attacker in [alienShoot]; the reducer
    therefore returns a [result]. *)

From Stdlib Require Import QArith Qround Qreduction Qabs Lqa.
From Stdlib Require Import ZArith Lia Bool List String DecimalString.
From Stdlib Require Qcanon DecimalZ DecimalPos.
Import ListNotations.

Set Implicit Arguments.

(** ** Numbers *)

Declare Scope js_scope.
Delimit Scope js_scope with js.

(** The type [number], for the numbers that need not be whole. *)
Definition number : Set := Q.
Bind Scope js_scope with number.

Module Num.

Definition add (a b : number) : number := Qred (a + b)%Q.
Definition sub (a b : number) : number := Qred (a - b)%Q.
Definition mul (a b : number) : number := Qred (a * b)%Q.
Definition div (a b : number) : number := Qred (a / b)%Q.

Definition leb (a b : number) : bool := Qle_bool a b.
Definition ltb (a b : number) : bool := negb (Qle_bool b a).

(** Truncation towards zero, the integer part that [%] takes away. *)
Definition trunc (a : number) : Z := Z.quot (Qnum a) (Zpos (Qden a)).

(** JavaScript's [a % b]: the remainder has the sign of the dividend. *)
Definition rem (a b : number) : number :=
  Qred (a - b * inject_Z (trunc (a / b)%Q))%Q.

(** [Math.floor]. *)
Definition floor (a : number) : Z := Qfloor a.

(** [Math.sign]. *)
Definition sign (a : number) : number :=
  if ltb 0%Q a then 1%Q else if ltb a 0%Q then (-1)%Q else 0%Q.

(** A whole number as a [number]. *)
Definition ofZ (n : Z) : number := inject_Z n.

(** The decimal rendering of an integer, as string concatenation does it. *)
Definition toString (n : Z) : string := NilZero.string_of_int (Z.to_int n).

End Num.

Notation "a + b" := (Num.add a b) : js_scope.
Notation "a - b" := (Num.sub a b) : js_scope.
Notation "a * b" := (Num.mul a b) : js_scope.
Notation "a / b" := (Num.div a b) : js_scope.
Notation "a <=? b" := (Num.leb a b) : js_scope.
Notation "a <? b" := (Num.ltb a b) : js_scope.
Notation "a >=? b" := (Num.leb b a) (at level 70) : js_scope.
Notation "a >? b" := (Num.ltb b a) (at level 70) : js_scope.

Open Scope Q_scope.
Open Scope js_scope.

(** ** [class Vec] *)

Module Vec.

Record t : Set := new { x : number; y : number }.

Definition add (a b : t) : t := new (x a + x b) (y a + y b).
Definition scale (a : t) (s : number) : t := new (x a * s) (y a * s).
Definition sub (a b : t) : t := add a (scale b (-1)).

(** The body of [rotate] once the cosine and the sine are known. *)
Definition rotateBy (cos sin : number) (a : t) : t :=
  new (x a * cos - y a * sin) (x a * sin + y a * cos).

(** [rotate(180)]. *)
Definition rotate180 : t -> t := rotateBy (-1) 0.

Definition Zero : t := new 0 0.

End Vec.

(** ** [class RNG] *)

Module RNG.

Record t : Set := new { state : number }.

Definition m : number := 2147483648.   (* 0x80000000 *)
Definition a : number := 1103515245.
Definition c : number := 12345.

Definition int (r : t) : number := Num.rem (a * state r + c) m.
Definition float (r : t) : number := (int r / (m - 1)).
Definition next (r : t) : t := new (int r).

End RNG.


(** ** Helper functions of the source *)

(** [flatMap]: apply [f] to every element and concatenate the results. *)
Definition flatMap {T U : Type} (a : list T) (f : T -> list U) : list U :=
  flat_map f a.

(** [not]: invert the result of a boolean function. *)
Definition not_ {T : Type} (f : T -> bool) (x : T) : bool := negb (f x).

(** [elem]: [a.findIndex(eq(e)) >= 0]. *)
Definition elem {T : Type} (eq : T -> T -> bool) (a : list T) (e : T) : bool :=
  existsb (eq e) a.

(** [except]: the elements of [a] that are not in [b]. *)
Definition except {T : Type} (eq : T -> T -> bool) (a b : list T) : list T :=
  filter (not_ (elem eq b)) a.

(** [arr.map((v, i) => ...)]: a map that also sees the index. *)
Fixpoint mapi_from {T U : Type} (i : Z) (f : T -> Z -> U) (l : list T) : list U :=
  match l with
  | [] => []
  | v :: l' => f v i :: mapi_from (i + 1) f l'
  end.

Definition mapi {T U : Type} (f : T -> Z -> U) (l : list T) : list U :=
  mapi_from 0 f l.

(** [Array(n).fill(null).map((_, i) => f i)]. *)
Definition tabulate {U : Type} (n : Z) (f : Z -> U) : list U :=
  map (fun i => f (Z.of_nat i)) (seq 0 (Z.to_nat n)).

(** An array read [a[i]]: [undefined] outside the array. *)
Definition index {T : Type} (a : list T) (i : Z) : option T :=
  if (i <? 0)%Z then None else nth_error a (Z.to_nat i).

(** ** Game constants, types *)

Record Dims : Set := mkDims { width : number; height : number }.

Module CONST.
Definition CANVAS_SIZE : number := 600.
Definition START_TIME : number := 0.
Module SHIP.
Definition DIMS : Dims := mkDims 50 20.
End SHIP.
Module BULLET.
Definition PLAYER_VEL : number := 5.
Definition ALIEN_VEL : number := 5.
Definition DIMS : Dims := mkDims 6 24.
End BULLET.
Module BULLET_HOLE.
Definition DIMS : Dims := mkDims 25 25.
End BULLET_HOLE.
Module SHIELD.
Definition INITIAL_POS : Vec.t := Vec.new 10 425.
Definition DISTANCE_APART : number := 125.
Definition DIMS : Dims := mkDims 80 40.
End SHIELD.
Module ALIEN.
Definition SPACING : number := 10.
Definition SCORING : Z := 10.
Definition DIMS : Dims := mkDims 35 35.
Module INITIAL.
Definition POS : Vec.t := Vec.new 50 50.
Definition SPEED : number := 0.3.
Definition ACC : number := 0.0001.
End INITIAL.
Module X_BOUNDS.
Definition left : number := 50.
Definition right : number := 500.
End X_BOUNDS.
Module MOVE_DIST.
Definition x : number := 140.
Definition y : number := 35.
End MOVE_DIST.
Definition ROWS : Z := 3.
Definition COLS : Z := 8.
End ALIEN.
Module UFO.
Module INITIAL.
Definition POS : Vec.t := Vec.new (-50) 50.
Definition VEL : Vec.t := Vec.new 2 0.
End INITIAL.
Definition DIMS : Dims := mkDims 100 60.
Definition POINTS : Z := 50.
End UFO.
Module DIFFICULTY.
Definition ALIEN_ACC_SCALE : number := 2.
End DIFFICULTY.
End CONST.

(** Game's view element types. *)
Inductive ViewType : Set :=
  | ship_ | bulletPlayer | hole | shield | alien | bulletAlien | ufo_.

Definition ViewType_name (v : ViewType) : string :=
  match v with
  | ship_ => "ship"
  | bulletPlayer => "bulletPlayer"
  | hole => "hole"
  | shield => "shield"
  | alien => "alien"
  | bulletAlien => "bulletAlien"
  | ufo_ => "ufo"
  end.

Definition ViewType_eqb (v w : ViewType) : bool :=
  match v, w with
  | ship_, ship_ | bulletPlayer, bulletPlayer | hole, hole | shield, shield
  | alien, alien | bulletAlien, bulletAlien | ufo_, ufo_ => true
  | _, _ => false
  end.

(** Objects with physics. *)
Record Body : Set := mkBody {
  id : string;
  viewType : ViewType;
  createTime : number;
  dims : Dims;
  pos : Vec.t;   (* position of top left corner *)
  vel : Vec.t;
  acc : Vec.t
}.

Record MovementPos : Set := mkMovementPos {
  start : Vec.t;
  current : Body
}.

(** Alien controller and interactable aliens. *)
Record AliensInfo : Set := mkAliensInfo {
  bodies : list Body;
  accMagnitude : number;
  movementPos : MovementPos
}.

(** What the array [exit] holds at run time: bodies, and the formation
    record that [renewState] hands to [concat] as it is. *)
Inductive ExitEntry : Set :=
  | ExitBody (b : Body)
  | ExitAliensInfo (a : AliensInfo).

(** Game state. *)
Record State : Set := mkState {
  time : number;
  score : Z;
  hiScore : Z;
  gameOver : bool;
  ship : Body;
  bullets : list Body;
  exit : list ExitEntry;
  shields : list Body;
  holes : list Body;
  aliens : AliensInfo;
  ufo : list Body;
  objCount : Z;
  rng : RNG.t
}.

(** Game state transitions. *)
Inductive Event : Set :=
  | Tick (elapsed : number)
  | Move (direction : number)
  | Shoot
  | AlienShoot
  | Restart
  | UfoSpawn.

(** The outcome of a reduction: a state, or the [TypeError] of a property
    read on [undefined]. *)
Inductive result (A : Type) : Type :=
  | Ok (a : A)
  | TypeError.
Arguments Ok {A} a.
Arguments TypeError {A}.

(** ** Generators for in game objects *)

Definition createBody (v : ViewType) (oId : option Z) (t : number) (d : Dims)
    (p : Vec.t) (ve : Vec.t) (ac : Vec.t) : Body :=
  {| id := ViewType_name v ++ match oId with Some n => Num.toString n | None => "" end;
     viewType := v;
     createTime := t;
     dims := d;
     pos := p;
     vel := ve;
     acc := ac |}.

Definition createAlien (oId : option Z) (p : Vec.t) (accMag : number) : Body :=
  createBody alien oId CONST.START_TIME CONST.ALIEN.DIMS p
    (Vec.new CONST.ALIEN.INITIAL.SPEED 0) (Vec.new accMag 0).

Definition createShip : Body :=
  let SHIP_DIMS := CONST.SHIP.DIMS in
  createBody ship_ None CONST.START_TIME SHIP_DIMS
    (Vec.new (CONST.CANVAS_SIZE / 2 - width SHIP_DIMS / 2)
             (CONST.CANVAS_SIZE - 50 - height SHIP_DIMS / 2))
    Vec.Zero Vec.Zero.

Definition createShields : list Body :=
  tabulate 5 (fun i =>
    createBody shield (Some i) CONST.START_TIME CONST.SHIELD.DIMS
      (Vec.add CONST.SHIELD.INITIAL_POS
         (Vec.new (Num.ofZ i * CONST.SHIELD.DISTANCE_APART) 0))
      Vec.Zero Vec.Zero).

Definition createAliens (alienAcc : number) : AliensInfo :=
  let ROWS := CONST.ALIEN.ROWS in
  let COLS := CONST.ALIEN.COLS in
  let TOTAL := (ROWS * COLS)%Z in
  let aliens :=
    tabulate TOTAL (fun i =>
      createAlien (Some i)
        (Vec.add CONST.ALIEN.INITIAL.POS
           (Vec.new
              (Num.ofZ (Z.rem i COLS)
                 * (width CONST.ALIEN.DIMS + CONST.ALIEN.SPACING))
              (Num.ofZ (Num.floor (Num.ofZ i / Num.ofZ COLS))
                 * (height CONST.ALIEN.DIMS + CONST.ALIEN.SPACING))))
        alienAcc) in
  {| bodies := aliens;
     accMagnitude := alienAcc;
     movementPos :=
       {| start := Vec.new (Vec.x CONST.ALIEN.INITIAL.POS) 0;
          current := createAlien None (Vec.new (Vec.x CONST.ALIEN.INITIAL.POS) 0)
                       CONST.ALIEN.INITIAL.ACC |} |}.

(** ** Game state objects *)

(** The initial state.  The stored high score and the seed of the shooter
    stream are read from the environment when the module loads. *)
Definition initialState (PREV_HI_SCORE : Z) (SHOOTER : number) : State :=
  {| time := CONST.START_TIME;
     score := 0;
     hiScore := PREV_HI_SCORE;
     gameOver := false;
     ship := createShip;
     bullets := [];
     exit := [];
     shields := createShields;
     holes := [];
     aliens := createAliens CONST.ALIEN.INITIAL.ACC;
     ufo := [];
     objCount := CONST.ALIEN.ROWS * CONST.ALIEN.COLS;
     rng := RNG.new SHOOTER |}.

(** Renews the state to a beginning state, for a restart or a new level. *)
Definition renewState (s : State) (resetState : bool) : State :=
  let alienAcc :=
    if resetState then CONST.ALIEN.INITIAL.ACC
    else (CONST.DIFFICULTY.ALIEN_ACC_SCALE * accMagnitude (aliens s)) in
  {| time := CONST.START_TIME;
     score := if resetState then 0 else score s;
     hiScore := hiScore s;
     gameOver := false;
     ship := createShip;
     bullets := [];
     exit := map ExitBody (bullets s) ++ map ExitBody (holes s)
               ++ map ExitBody (ufo s) ++ [ExitAliensInfo (aliens s)];
     shields := shields s;
     holes := [];
     aliens := createAliens alienAcc;
     ufo := [];
     objCount := objCount s + CONST.ALIEN.ROWS * CONST.ALIEN.COLS;
     rng := RNG.next (rng s) |}.

(** ** Physics handlers for bodies *)

(** Comparison of ids between bodies. *)
Definition sameId (a b : Body) : bool := String.eqb (id a) (id b).

(** Compare a view type with that of a body. *)
Definition isViewType (v : ViewType) (o : Body) : bool :=
  ViewType_eqb v (viewType o).

(** Check that an object is in the bounds of the canvas. *)
Definition inBounds (o : Body) : bool :=
  let s := CONST.CANVAS_SIZE in
  let topLeft := pos o in
  let bound := fun v : number => (v >? 0)%js && (v <? s)%js in
  bound (Vec.x topLeft) && bound (Vec.x topLeft + width (dims o))
  && bound (Vec.y topLeft) && bound (Vec.y topLeft + height (dims o)).

(** Move an object, accounting for velocity and acceleration. *)
Definition moveBody (o : Body) : Body :=
  {| id := id o; viewType := viewType o; createTime := createTime o;
     dims := dims o;
     pos := Vec.add (pos o) (vel o);
     vel := Vec.add (vel o) (acc o);
     acc := acc o |}.

(** Stop an object from moving and rebound it back in the canvas. *)
Definition stopBody (o : Body) : Body :=
  {| id := id o; viewType := viewType o; createTime := createTime o;
     dims := dims o;
     pos := Vec.sub (pos o) (vel o);
     vel := Vec.Zero;
     acc := acc o |}.

(** Shifts an alien down and flips the direction of its movement. *)
Definition shiftAlienDown (a : Body) : Body :=
  {| id := id a; viewType := viewType a; createTime := createTime a;
     dims := dims a;
     pos := Vec.add (pos a) (Vec.new 0 CONST.ALIEN.MOVE_DIST.y);
     vel := Vec.rotate180 (vel a);
     acc := Vec.rotate180 (acc a) |}.

(** Shifts an alien horizontally by a given amount. *)
Definition shiftAlienX (shift : number) (a : Body) : Body :=
  {| id := id a; viewType := viewType a; createTime := createTime a;
     dims := dims a;
     pos := Vec.add (pos a) (Vec.new shift 0);
     vel := vel a;
     acc := acc a |}.

(** Handles the movement of all aliens and shifts them down when required. *)
Definition moveAliens (a : AliensInfo) : AliensInfo :=
  let curX := Vec.x (pos (current (movementPos a))) in
  let startX := Vec.x (start (movementPos a)) in
  let aliensTopRightPosX :=
    (CONST.ALIEN.X_BOUNDS.right
     - (Num.ofZ CONST.ALIEN.COLS * width CONST.ALIEN.DIMS
        + (Num.ofZ CONST.ALIEN.COLS - 1) * CONST.ALIEN.SPACING)) in
  let leftBound := (curX <=? startX - aliensTopRightPosX)%js in
  let rightBound := (curX >=? startX + aliensTopRightPosX)%js in
  let outOfBounds := leftBound || rightBound in
  let shiftLeft :=
    if rightBound
    then ((curX + aliensTopRightPosX * 2) - CONST.ALIEN.X_BOUNDS.right)
    else 0 in
  let shiftRight :=
    if leftBound then (curX - CONST.ALIEN.X_BOUNDS.left) else 0 in
  let shiftX := shiftAlienX (shiftLeft + shiftRight) in
  {| bodies :=
       if outOfBounds
       then map shiftAlienDown (map shiftX (bodies a))
       else map moveBody (bodies a);
     accMagnitude := accMagnitude a;
     movementPos :=
       if outOfBounds
       then {| start := pos (current (movementPos a));
               current := shiftAlienDown (shiftX (current (movementPos a))) |}
       else {| start := start (movementPos a);
               current := moveBody (current (movementPos a)) |} |}.

(** Checks the collision between two rectangular bodies. *)
Definition bodiesCollided (p : Body * Body) : bool :=
  let (a, b) := p in
  (Vec.x (pos a) + width (dims a) >=? Vec.x (pos b))%js
  && (Vec.x (pos a) <=? Vec.x (pos b) + width (dims b))%js
  && (Vec.y (pos a) + height (dims a) >=? Vec.y (pos b))%js
  && (Vec.y (pos a) <=? Vec.y (pos b) + height (dims b))%js.

(** Removes the bodies in the second array from the first, based on id. *)
Definition cut : list Body -> list Body -> list Body := except sameId.

(** Checks collisions between two lists of bodies and returns the collided
    pairs. *)
Definition collidedBodies (f : Body * Body -> bool) (aArr bArr : list Body)
    : list (Body * Body) :=
  filter f (flatMap aArr (fun a => map (fun b => (a, b)) bArr)).

Definition checkCollision : list Body -> list Body -> list (Body * Body) :=
  collidedBodies bodiesCollided.

(** The intermediate values of [handleCollisions]. *)
Definition shipCollided (s : State) : bool :=
  (0 <? List.length (filter (fun b => bodiesCollided (ship s, b)) (bullets s)))%nat.

Definition collidedBulletsFromShields (s : State) : list Body :=
  map fst (checkCollision (bullets s) (shields s)).

Definition collidedBulletsFromHoles (s : State) : list Body :=
  map fst (checkCollision (collidedBulletsFromShields s) (holes s)).

Definition expiredBulletsFromShields (s : State) : list Body :=
  cut (collidedBulletsFromShields s) (collidedBulletsFromHoles s).

Definition playerBullets (s : State) : list Body :=
  filter (isViewType bulletPlayer) (bullets s).

Definition collidedPlayerBulletsAndAliens (s : State) : list (Body * Body) :=
  checkCollision (playerBullets s) (bodies (aliens s)).

Definition expiredBulletsFromAliens (s : State) : list Body :=
  map fst (collidedPlayerBulletsAndAliens s).

Definition expiredAliens (s : State) : list Body :=
  map snd (collidedPlayerBulletsAndAliens s).

Definition remainingAliens (s : State) : list Body :=
  filter (not_ (elem sameId (expiredAliens s))) (bodies (aliens s)).

Definition expiredBulletsWithBullets (s : State) : list Body :=
  map fst
    (filter (not_ (fun p : Body * Body => sameId (fst p) (snd p)))
       (checkCollision (bullets s) (bullets s))).

Definition collidedPlayerBulletsAndUfo (s : State) : list (Body * Body) :=
  checkCollision (playerBullets s) (ufo s).

Definition expiredBulletsFromUfo (s : State) : list Body :=
  map fst (collidedPlayerBulletsAndUfo s).

Definition expiredUfos (s : State) : list Body :=
  map snd (collidedPlayerBulletsAndUfo s).

Definition remainingUfos (s : State) : list Body :=
  filter (not_ (elem sameId (expiredUfos s))) (ufo s).

Definition holesBullets (s : State) : list Body :=
  mapi (fun (b : Body) (i : Z) =>
    createBody hole (Some (objCount s + i)%Z) (time s) CONST.BULLET_HOLE.DIMS
      (Vec.add (pos b)
         (Vec.new
            (width (dims b) / 2 - width CONST.BULLET_HOLE.DIMS / 2)
            (if (Num.sign (Vec.y (vel b)) >? 0)%js
             then (height CONST.BULLET_HOLE.DIMS
                   - height CONST.BULLET_HOLE.DIMS / 2)
             else 0)))
      Vec.Zero Vec.Zero)
    (expiredBulletsFromShields s).

Definition expiredBullets (s : State) : list Body :=
  expiredBulletsFromShields s ++ expiredBulletsFromAliens s
    ++ expiredBulletsWithBullets s ++ expiredBulletsFromUfo s.

Definition currentHoleCount (s : State) : Z :=
  Z.of_nat (List.length (holesBullets s)).

Definition newScore (s : State) : Z :=
  (score s
   + CONST.ALIEN.SCORING * Z.of_nat (List.length (collidedPlayerBulletsAndAliens s))
   + CONST.UFO.POINTS * Z.of_nat (List.length (expiredUfos s)))%Z.

(** Collision handler. *)
Definition handleCollisions (s : State) : State :=
  {| time := time s;
     score := newScore s;
     hiScore := if (newScore s >? hiScore s)%Z then newScore s else hiScore s;
     gameOver := gameOver s || shipCollided s;
     ship := ship s;
     bullets :=
       cut (cut (cut (bullets s) (expiredBulletsFromShields s))
              (expiredBulletsFromAliens s))
         (expiredBulletsWithBullets s);
     exit := exit s ++ map ExitBody (expiredAliens s)
               ++ map ExitBody (expiredBullets s)
               ++ map ExitBody (expiredUfos s);
     shields := shields s;
     holes := holes s ++ holesBullets s;
     aliens := {| bodies := remainingAliens s;
                  accMagnitude := accMagnitude (aliens s);
                  movementPos := movementPos (aliens s) |};
     ufo := remainingUfos s;
     objCount := objCount s + currentHoleCount s;
     rng := rng s |}.

(** A UFO is kept while its left edge is left of the canvas size plus its
    width. *)
Definition exitLeft (o : Body) : bool :=
  (Vec.x (pos o) <? CONST.CANVAS_SIZE + width (dims o))%js.

(** The state that [tick] hands to [handleCollisions]: bullets and UFOs that
    left are moved to [exit], and everything else is moved. *)
Definition tickMoved (s : State) (elapsed : number) : State :=
  let activeBullets := filter inBounds (bullets s) in
  let expiredBullets := filter (not_ inBounds) (bullets s) in
  let alienInvaded :=
    (0 <? List.length (filter (not_ inBounds) (bodies (aliens s))))%nat in
  let activeUfos := filter exitLeft (ufo s) in
  let expiredUfos := except sameId (ufo s) activeUfos in
  {| time := elapsed;
     score := score s;
     hiScore := hiScore s;
     gameOver := alienInvaded;
     ship := if inBounds (ship s) then moveBody (ship s) else stopBody (ship s);
     bullets := map moveBody activeBullets;
     exit := exit s ++ map ExitBody expiredBullets ++ map ExitBody expiredUfos;
     shields := shields s;
     holes := holes s;
     aliens := moveAliens (aliens s);
     ufo := map moveBody activeUfos;
     objCount := objCount s;
     rng := rng s |}.

(** Updates the status of the objects over one tick of the clock. *)
Definition tick (s : State) (elapsed : number) : State :=
  handleCollisions (tickMoved s elapsed).

(** ** Alien functions *)

(** Pseudo-randomly selects an alien to shoot. *)
Definition alienShoot (s : State) : result State :=
  let attackerIndex :=
    Num.floor (Num.ofZ (Z.of_nat (List.length (bodies (aliens s))))
               * RNG.float (rng s)) in
  match index (bodies (aliens s)) attackerIndex with
  | None => TypeError
  | Some attacker =>
      Ok {| time := time s; score := score s; hiScore := hiScore s;
            gameOver := gameOver s; ship := ship s;
            bullets :=
              bullets s ++
              [createBody bulletAlien (Some (objCount s)) (time s)
                 CONST.BULLET.DIMS
                 (Vec.add (pos attacker)
                    (Vec.new
                       (width (dims attacker) / 2
                        - width CONST.BULLET.DIMS / 2)
                       (height (dims attacker))))
                 (Vec.new 0 CONST.BULLET.ALIEN_VEL)
                 Vec.Zero];
            exit := exit s; shields := shields s; holes := holes s;
            aliens := aliens s; ufo := ufo s;
            objCount := objCount s + 1;
            rng := RNG.next (rng s) |}
  end.

(** ** The state reducer *)

Definition reduceState (s : State) (e : Event) : result State :=
  if (List.length (bodies (aliens s)) =? 0)%nat then
    Ok (renewState s false)
  else match e with
  | Restart => Ok (renewState s true)
  | _ =>
    if gameOver s then Ok s
    else match e with
    | Move direction =>
        Ok {| time := time s; score := score s; hiScore := hiScore s;
              gameOver := gameOver s;
              ship := {| id := id (ship s); viewType := viewType (ship s);
                         createTime := createTime (ship s);
                         dims := dims (ship s); pos := pos (ship s);
                         vel := Vec.new direction 0;
                         acc := acc (ship s) |};
              bullets := bullets s; exit := exit s; shields := shields s;
              holes := holes s; aliens := aliens s; ufo := ufo s;
              objCount := objCount s; rng := rng s |}
    | Shoot =>
        (* Player may only have 1 projectile on screen *)
        if negb (existsb (fun b => ViewType_eqb (viewType b) bulletPlayer)
                   (bullets s))
        then
          Ok {| time := time s; score := score s; hiScore := hiScore s;
                gameOver := gameOver s; ship := ship s;
                bullets :=
                  bullets s ++
                  [createBody bulletPlayer (Some (objCount s)) (time s)
                     CONST.BULLET.DIMS
                     (Vec.add (pos (ship s))
                        (Vec.new
                           (width (dims (ship s)) / 2
                            - width CONST.BULLET.DIMS / 2)
                           (-30)))
                     (Vec.rotate180 (Vec.new 0 CONST.BULLET.PLAYER_VEL))
                     Vec.Zero];
                exit := exit s; shields := shields s; holes := holes s;
                aliens := aliens s; ufo := ufo s;
                objCount := objCount s + 1;
                rng := rng s |}
        else Ok s
    | AlienShoot => alienShoot s
    | UfoSpawn =>
        Ok {| time := time s; score := score s; hiScore := hiScore s;
              gameOver := gameOver s; ship := ship s; bullets := bullets s;
              exit := exit s; shields := shields s; holes := holes s;
              aliens := aliens s;
              ufo := ufo s ++
                     [createBody ufo_ (Some (objCount s)) (time s)
                        CONST.UFO.DIMS CONST.UFO.INITIAL.POS
                        CONST.UFO.INITIAL.VEL Vec.Zero];
              objCount := objCount s + 1;
              rng := rng s |}
    | Restart => Ok (renewState s true)
    | Tick elapsed => Ok (tick s elapsed)
    end
  end.

(** Folding the reducer over a sequence of events, as [scan] does. *)
Fixpoint run (s : State) (es : list Event) : result State :=
  match es with
  | [] => Ok s
  | e :: es' =>
      match reduceState s e with
      | Ok s' => run s' es'
      | TypeError => TypeError
      end
  end.

Close Scope js_scope.

(** ** Executions *)

(** The states the game can be in: the initial state, for the stored high
    score and the seed found when the module loads, and every state the
    reducer gives from such a state. *)
Inductive reachable (PREV_HI_SCORE : Z) (SHOOTER : Q) : State -> Prop :=
  | reachable_initial :
      reachable PREV_HI_SCORE SHOOTER (initialState PREV_HI_SCORE SHOOTER)
  | reachable_reduce : forall (s s' : State) (e : Event),
      reachable PREV_HI_SCORE SHOOTER s ->
      reduceState s e = Ok s' ->
      reachable PREV_HI_SCORE SHOOTER s'.

(** Sequencing of reductions that may fail. *)
Definition andThen (r : result State) (f : State -> result State)
    : result State :=
  match r with
  | Ok s => f s
  | TypeError => TypeError
  end.

(** [drive p n s]: [n] reductions from [s], the event of each chosen by the
    player [p] from the state on the screen. *)
Fixpoint drive (p : State -> Event) (n : nat) (s : State) : result State :=
  match n with
  | O => Ok s
  | S n' => andThen (reduceState s (p s)) (drive p n')
  end.

(** The clock: the next tick carries the next elapsed count. *)
Definition clock (s : State) : Event := Tick (time s + 1)%js.

(** A player who holds the fire key: a shot whenever no player bullet is in
    flight, and otherwise the clock ticks. *)
Definition gunner (s : State) : Event :=
  if existsb (isViewType bulletPlayer) (bullets s) then clock s else Shoot.

(** Hold an arrow key for [n] ticks, then release it. *)
Definition steer (direction : Q) (n : nat) (s : State) : result State :=
  andThen (andThen (reduceState s (Move direction)) (drive clock n))
    (fun s' => reduceState s' (Move 0)).

(** The rigid-formation property: every alien has the velocity and the
    acceleration of the formation anchor. *)
Definition rigid (a : AliensInfo) : Prop :=
  Forall (fun b => vel b = vel (current (movementPos a))
                   /\ acc b = acc (current (movementPos a)))
    (bodies a).

(** The rectangle of a body has [pos] as its top left corner and sides
    [width] and [height] long; its edges belong to it.  Two rectangles
    overlap on an axis when a coordinate lies in both of their extents on
    that axis. *)
Definition overlapOnX (a b : Body) : Prop :=
  exists p : Q,
    (Vec.x (pos a) <= p <= Vec.x (pos a) + width (dims a))%Q
    /\ (Vec.x (pos b) <= p <= Vec.x (pos b) + width (dims b))%Q.

Definition overlapOnY (a b : Body) : Prop :=
  exists p : Q,
    (Vec.y (pos a) <= p <= Vec.y (pos a) + height (dims a))%Q
    /\ (Vec.y (pos b) <= p <= Vec.y (pos b) + height (dims b))%Q.

(** A body whose sides have a length. *)
Definition properDims (o : Body) : Prop :=
  (0 <= width (dims o))%Q /\ (0 <= height (dims o))%Q.

(** ** Scenarios *)

(** What a reduction gave, or a given state when it threw. *)
Definition orElse (r : result State) (d : State) : State :=
  match r with
  | Ok s => s
  | TypeError => d
  end.

(** A game that starts with no stored high score. *)
Definition newGame : State := initialState 0 (1 # 2).

(** A player bullet whose right edge is at x = 260, and the third shield,
    whose left edge is at x = 260. *)
Definition touchingBullet : Body :=
  createBody bulletPlayer (Some 24%Z) 0 CONST.BULLET.DIMS (Vec.new 254 441)
    (Vec.rotate180 (Vec.new 0 CONST.BULLET.PLAYER_VEL)) Vec.Zero.

Definition thirdShield : Body :=
  nth 2 createShields createShip.

(** A state that a [number] can hold, 2089531399 / 2^30, a little under
    1.94602777: one step of the recurrence from it lies between [m - 1] and
    [m]. *)
Definition stateAboveOne : number := 2089531399 # 1073741824.


(** The first shot of a game. *)
Definition shotFired : State := orElse (reduceState newGame Shoot) newGame.

(** The player steps right of the third shield and holds the fire key: the
    first bullet has hit an alien of the lowest row. *)
Definition firstKill : State :=
  orElse (andThen (steer 3 15 newGame) (drive gunner 70)) newGame.

(** The player steps left, to the gap between the first two shields, lets
    the formation go by and fires; a UFO is spawned while the bullet flies,
    and one tick from here the two meet. *)
Definition ufoUnderFire : State :=
  orElse
    (andThen (andThen (andThen (andThen (andThen
       (steer (-3) 68 newGame)
       (drive clock 100))
       (fun s => reduceState s Shoot))
       (drive clock 64))
       (fun s => reduceState s UfoSpawn))
       (drive clock 21))
    newGame.

(** A whole first level: the player fires from three places until the
    last alien is hit. *)
Definition levelCleared : State :=
  orElse
    (andThen (andThen (andThen (andThen (andThen
       (steer (-3) 14 newGame)
       (drive gunner 1500))
       (steer 3 42))
       (drive gunner 1500))
       (steer (-3) 88))
       (drive gunner 236))
    newGame.

(** ** The states that the branches of the reducer build *)

(** The [Move] branch. *)
Definition withShipVelocity (s : State) (direction : number) : State :=
  {| time := time s; score := score s; hiScore := hiScore s;
     gameOver := gameOver s;
     ship := {| id := id (ship s); viewType := viewType (ship s);
                createTime := createTime (ship s);
                dims := dims (ship s); pos := pos (ship s);
                vel := Vec.new direction 0;
                acc := acc (ship s) |};
     bullets := bullets s; exit := exit s; shields := shields s;
     holes := holes s; aliens := aliens s; ufo := ufo s;
     objCount := objCount s; rng := rng s |}.

(** The bullet of the [Shoot] branch. *)
Definition playerBullet (s : State) : Body :=
  createBody bulletPlayer (Some (objCount s)) (time s) CONST.BULLET.DIMS
    (Vec.add (pos (ship s))
       (Vec.new (width (dims (ship s)) / 2 - width CONST.BULLET.DIMS / 2)%js
          (-30)))
    (Vec.rotate180 (Vec.new 0 CONST.BULLET.PLAYER_VEL))
    Vec.Zero.

(** The [Shoot] branch when no player bullet is in flight. *)
Definition withPlayerBullet (s : State) : State :=
  {| time := time s; score := score s; hiScore := hiScore s;
     gameOver := gameOver s; ship := ship s;
     bullets := bullets s ++ [playerBullet s];
     exit := exit s; shields := shields s; holes := holes s;
     aliens := aliens s; ufo := ufo s;
     objCount := objCount s + 1;
     rng := rng s |}.

(** The bullet of [alienShoot], under the attacker. *)
Definition alienBullet (s : State) (attacker : Body) : Body :=
  createBody bulletAlien (Some (objCount s)) (time s) CONST.BULLET.DIMS
    (Vec.add (pos attacker)
       (Vec.new (width (dims attacker) / 2 - width CONST.BULLET.DIMS / 2)%js
          (height (dims attacker))))
    (Vec.new 0 CONST.BULLET.ALIEN_VEL)
    Vec.Zero.

(** What [alienShoot] returns once it has its attacker. *)
Definition withAlienBullet (s : State) (attacker : Body) : State :=
  {| time := time s; score := score s; hiScore := hiScore s;
     gameOver := gameOver s; ship := ship s;
     bullets := bullets s ++ [alienBullet s attacker];
     exit := exit s; shields := shields s; holes := holes s;
     aliens := aliens s; ufo := ufo s;
     objCount := objCount s + 1;
     rng := RNG.next (rng s) |}.

(** The UFO of the [UfoSpawn] branch. *)
Definition newUfo (s : State) : Body :=
  createBody ufo_ (Some (objCount s)) (time s) CONST.UFO.DIMS
    CONST.UFO.INITIAL.POS CONST.UFO.INITIAL.VEL Vec.Zero.

(** The [UfoSpawn] branch. *)
Definition withUfo (s : State) : State :=
  {| time := time s; score := score s; hiScore := hiScore s;
     gameOver := gameOver s; ship := ship s; bullets := bullets s;
     exit := exit s; shields := shields s; holes := holes s;
     aliens := aliens s;
     ufo := ufo s ++ [newUfo s];
     objCount := objCount s + 1;
     rng := rng s |}.

(** Whether a player bullet is in flight, as the [Shoot] branch asks. *)
Definition playerBulletInFlight (s : State) : bool :=
  existsb (fun b => ViewType_eqb (viewType b) bulletPlayer) (bullets s).

(** ** Further scenarios *)

(** The state that collision handling is given on the tick that follows
    [s]. *)
Definition moved (s : State) : State := tickMoved s (time s + 1)%js.

(** One tick before the first kill: the bullet is five units under the
    lowest row. *)
Definition alienUnderFire : State :=
  orElse (andThen (steer 3 15 newGame) (drive gunner 67)) newGame.

(** The player fires from the middle, under the third shield: the first
    bullet is five units under the shield. *)
Definition bulletAtShield : State := orElse (drive gunner 9 newGame) newGame.

(** The same player a little later: the first bullet has left a hole in the
    shield, and the second bullet is in that hole. *)
Definition bulletAtHole : State := orElse (drive gunner 20 newGame) newGame.

(** The player does nothing: after 3950 ticks the lowest row is through the
    bottom of the canvas. *)
Definition invaded : State := orElse (drive clock 3950 newGame) newGame.

(** One tick later the game is over. *)
Definition gameLost : State :=
  orElse (reduceState invaded (clock invaded)) invaded.


(** Vectors whose coordinates are equal as numbers. *)
Definition sameVec (a b : Vec.t) : Prop :=
  (Vec.x a == Vec.x b)%Q /\ (Vec.y a == Vec.y b)%Q.

(** The ship as the reducer keeps it: on its line, with no vertical speed
    and no acceleration. *)
Definition shipOnItsLine (o : Body) : Prop :=
  id o = "ship"%string /\ viewType o = ship_ /\ dims o = CONST.SHIP.DIMS
  /\ Vec.y (pos o) = 540 /\ Vec.y (vel o) = 0 /\ acc o = Vec.Zero.

(** [b'] is [b] moved by [(dx, dy)]: the same id, view type and size, and a
    position that is the position of [b] plus [(dx, dy)]. *)
Definition translatedBy (dx dy : Q) (b b' : Body) : Prop :=
  id b' = id b /\ viewType b' = viewType b /\ dims b' = dims b
  /\ (Vec.x (pos b') == Vec.x (pos b) + dx)%Q
  /\ (Vec.y (pos b') == Vec.y (pos b) + dy)%Q.

(** A body whose id is the name of its view type followed by a number
    below [n]. *)
Definition numberedBelow (n : Z) (b : Body) : Prop :=
  exists k : Z,
    (k < n)%Z /\ id b = (ViewType_name (viewType b) ++ Num.toString k)%string.

(** The bodies in flight: bullets, holes and UFOs, which take their number
    from the object counter. *)
Definition inFlight (s : State) : list Body :=
  bullets s ++ holes s ++ ufo s.

(** The name of the hole numbered [j] after the object counter. *)
Definition holeId (s : State) (j : Z) : string :=
  (ViewType_name hole ++ Num.toString (objCount s + j))%string.

(** The ids in flight are pairwise distinct, and each is the name of a
    view type followed by a number below the object counter. *)
Definition distinctInFlight (s : State) : Prop :=
  NoDup (map id (inFlight s))
  /\ Forall (numberedBelow (objCount s)) (inFlight s).

(** An alien bullet and the player's bullet on one line, one tick before
    they meet: the ship has moved under the seventh column, an alien of
    that column has fired, and then the player. *)
Definition bulletsAboutToMeet : State :=
  orElse
    (andThen
       (andThen
          (andThen (steer 3 15 newGame) (fun s => reduceState s AlienShoot))
          (fun s => reduceState s Shoot))
       (drive clock 40))
    newGame.

(** The left key held for 91 ticks: the ship is two units from the left
    edge of the canvas and still moving left. *)
Definition shipAtTheWall : State :=
  orElse (andThen (reduceState newGame (Move (-3))) (drive clock 91)) newGame.


(** An alien of the formation: one of the 24 that [createAliens] numbers. *)
Definition ofTheFormation (a : Body) : Prop :=
  viewType a = alien /\ dims a = CONST.ALIEN.DIMS
  /\ exists k : Z,
       (0 <= k < 24)%Z
       /\ id a = (ViewType_name alien ++ Num.toString k)%string.

(** * Properties *)

(** ** Numbers *)

Lemma leb_le (a b : Q) : (a <=? b)%js = true <-> (a <= b)%Q.
Proof. unfold Num.leb. apply Qle_bool_iff. Qed.

Lemma ltb_lt (a b : Q) : (a <? b)%js = true <-> (a < b)%Q.
Proof.
  unfold Num.ltb. rewrite negb_true_iff. split.
  - intros H. apply Qnot_le_lt. intro Hle.
    apply Qle_bool_iff in Hle. congruence.
  - intros H. destruct (Qle_bool b a) eqn:E; [|reflexivity].
    apply Qle_bool_iff in E. exfalso. exact (Qlt_not_le _ _ H E).
Qed.

Lemma add_eq (a b : Q) : ((a + b)%js == a + b)%Q.
Proof. apply Qred_correct. Qed.

Lemma sub_eq (a b : Q) : ((a - b)%js == a - b)%Q.
Proof. apply Qred_correct. Qed.

Lemma mul_eq (a b : Q) : ((a * b)%js == a * b)%Q.
Proof. apply Qred_correct. Qed.

Lemma div_eq (a b : Q) : ((a / b)%js == a / b)%Q.
Proof. apply Qred_correct. Qed.

(** On a dividend that is not negative, truncation is the floor. *)
Lemma trunc_floor (q : Q) : (0 <= q)%Q -> Num.trunc q = Qfloor q.
Proof.
  destruct q as [n d]. unfold Qle, Num.trunc, Qfloor. simpl. intros H.
  apply Z.quot_div_nonneg; lia.
Qed.


(** ** The collision test *)

Lemma bodiesCollided_spec (a b : Body) :
  bodiesCollided (a, b) = true <->
  (Vec.x (pos b) <= Vec.x (pos a) + width (dims a))%Q
  /\ (Vec.x (pos a) <= Vec.x (pos b) + width (dims b))%Q
  /\ (Vec.y (pos b) <= Vec.y (pos a) + height (dims a))%Q
  /\ (Vec.y (pos a) <= Vec.y (pos b) + height (dims b))%Q.
Proof.
  unfold bodiesCollided. rewrite !andb_true_iff, !leb_le.
  pose proof (add_eq (Vec.x (pos a)) (width (dims a))) as Eax.
  pose proof (add_eq (Vec.x (pos b)) (width (dims b))) as Ebx.
  pose proof (add_eq (Vec.y (pos a)) (height (dims a))) as Eay.
  pose proof (add_eq (Vec.y (pos b)) (height (dims b))) as Eby.
  rewrite Eax, Ebx, Eay, Eby. tauto.
Qed.

(** Two extents [[lo1, lo1 + len1]] and [[lo2, lo2 + len2]] on a line share a
    coordinate exactly when each starts no later than the other ends. *)
Lemma extents_meet (lo1 len1 lo2 len2 : Q) :
  (0 <= len1)%Q -> (0 <= len2)%Q ->
  ((exists p : Q, (lo1 <= p <= lo1 + len1)%Q /\ (lo2 <= p <= lo2 + len2)%Q)
   <-> (lo2 <= lo1 + len1)%Q /\ (lo1 <= lo2 + len2)%Q).
Proof.
  intros H1 H2. split.
  - intros [p [[Ha Hb] [Hc Hd]]]. split; lra.
  - intros [Ha Hb]. destruct (Qlt_le_dec lo1 lo2) as [Hlt | Hge].
    + exists lo2. repeat split; lra.
    + exists lo1. repeat split; lra.
Qed.

(** C9.  For bodies whose sides have a length, the collision test is true
    exactly when the two rectangles (top left corner [pos], sides [width]
    and [height], edges included) overlap on the horizontal and on the
    vertical axis. *)
Theorem bodiesCollided_iff_overlap (a b : Body) :
  properDims a -> properDims b ->
  (bodiesCollided (a, b) = true <-> overlapOnX a b /\ overlapOnY a b).
Proof.
  intros [Haw Hah] [Hbw Hbh].
  rewrite bodiesCollided_spec. unfold overlapOnX, overlapOnY.
  rewrite (extents_meet _ _ Haw Hbw), (extents_meet _ _ Hah Hbh). tauto.
Qed.

(** Rectangles that only share an edge collide: here the right edge of the
    first is the left edge of the second. *)
Lemma touching_edges_collide (a b : Body) :
  (Vec.x (pos a) + width (dims a) == Vec.x (pos b))%Q ->
  (0 <= width (dims a))%Q -> (0 <= width (dims b))%Q ->
  (Vec.y (pos b) <= Vec.y (pos a) + height (dims a))%Q ->
  (Vec.y (pos a) <= Vec.y (pos b) + height (dims b))%Q ->
  bodiesCollided (a, b) = true.
Proof.
  intros Hx Hwa Hwb Hy1 Hy2. apply bodiesCollided_spec. repeat split; lra.
Qed.

Lemma bodiesCollided_iff_overlap_witness :
  properDims touchingBullet /\ properDims thirdShield
  /\ bodiesCollided (touchingBullet, thirdShield) = true
  /\ overlapOnX touchingBullet thirdShield
  /\ overlapOnY touchingBullet thirdShield.
Proof.
  assert (Ha : properDims touchingBullet)
    by (split; unfold Qle; simpl; lia).
  assert (Hb : properDims thirdShield)
    by (split; unfold Qle; simpl; lia).
  split; [exact Ha | split; [exact Hb | ]].
  split; [reflexivity | ].
  apply (proj1 (@bodiesCollided_iff_overlap touchingBullet thirdShield Ha Hb)).
  reflexivity.
Defined.

(** ** The generator *)





Lemma remainder_range (x m k : Q) :
  (0 < m)%Q -> (k <= x / m)%Q -> (x / m < k + 1)%Q ->
  (0 <= x - m * k < m)%Q.
Proof.
  intros Hm Hlo Hhi.
  assert (E : (x == x / m * m)%Q).
  { rewrite Qmult_comm. symmetry. apply Qmult_div_r.
    intros H. rewrite H in Hm. discriminate Hm. }
  assert (H1 : (k * m <= x / m * m)%Q)
    by (apply Qmult_le_compat_r; [exact Hlo | apply Qlt_le_weak; exact Hm]).
  assert (H2 : (x / m * m < (k + 1) * m)%Q)
    by (apply Qmult_lt_compat_r; [exact Hm | exact Hhi]).
  rewrite <- E in H1, H2. split; lra.
Qed.

(** From any state that is not negative, whole or not, the remainder is in
    the half-open interval from 0 to [m], so that [float] is not negative
    and stays below [m / (m - 1)]. *)
Lemma RNG_int_range (r : RNG.t) :
  (0 <= RNG.state r)%Q -> (0 <= RNG.int r < RNG.m)%Q.
Proof.
  intros Hs. unfold RNG.int, Num.rem.
  set (x := (RNG.a * RNG.state r + RNG.c)%js).
  assert (Hx : (0 <= x)%Q).
  { subst x. rewrite add_eq, mul_eq. unfold RNG.a, RNG.c.
    apply Qle_trans with (1103515245 * RNG.state r + 0)%Q.
    - rewrite Qplus_0_r. apply Qmult_le_0_compat; [discriminate | exact Hs].
    - apply Qplus_le_r. discriminate. }
  assert (Hm : (0 < RNG.m)%Q) by reflexivity.
  assert (Hq : (0 <= x / RNG.m)%Q).
  { apply Qle_shift_div_l; [exact Hm | ]. rewrite Qmult_0_l. exact Hx. }
  rewrite (trunc_floor Hq), Qred_correct.
  apply remainder_range; [exact Hm | apply Qfloor_le | ].
  pose proof (Qlt_floor (x / RNG.m)) as Hhi.
  rewrite inject_Z_plus in Hhi. exact Hhi.
Qed.

(** With a negative state the remainder, and so [float], is negative. *)
Example RNG_float_negative : (RNG.float (RNG.new (-1)) < 0)%Q.
Proof. reflexivity. Qed.

(** In exact arithmetic the bound 1 is attained by a whole state. *)
Example RNG_float_one : RNG.float (RNG.new 230538014) = 1%Q.
Proof. reflexivity. Qed.

(** ** Executions stay among the reachable states *)

Section Reachability.

Variable PREV_HI_SCORE : Z.
Variable SHOOTER : Q.

Let reach := reachable PREV_HI_SCORE SHOOTER.

Lemma andThen_Ok (r : result State) (f : State -> result State) (s' : State) :
  andThen r f = Ok s' -> exists s, r = Ok s /\ f s = Ok s'.
Proof.
  destruct r as [s | ]; simpl; intros H; [ | discriminate H].
  exists s. split; [reflexivity | exact H].
Qed.

Lemma reachable_drive (p : State -> Event) (n : nat) :
  forall s s', reach s -> drive p n s = Ok s' -> reach s'.
Proof.
  induction n as [ | n IH]; simpl; intros s s' Hs H.
  - injection H as <-. exact Hs.
  - apply andThen_Ok in H. destruct H as [s1 [H1 H2]].
    apply (IH s1); [ | exact H2].
    exact (reachable_reduce _ Hs H1).
Qed.

Lemma reachable_steer (d : Q) (n : nat) (s s' : State) :
  reach s -> steer d n s = Ok s' -> reach s'.
Proof.
  unfold steer. intros Hs H.
  apply andThen_Ok in H. destruct H as [s2 [H H3]].
  apply andThen_Ok in H. destruct H as [s1 [H1 H2]].
  refine (reachable_reduce _ _ H3).
  refine (reachable_drive _ _ _ H2).
  exact (reachable_reduce _ Hs H1).
Qed.

Lemma reachable_run (es : list Event) :
  forall s s', reach s -> run s es = Ok s' -> reach s'.
Proof.
  induction es as [ | e es IH]; simpl; intros s s' Hs H.
  - injection H as <-. exact Hs.
  - destruct (reduceState s e) as [s1 | ] eqn:E; [ | discriminate H].
    apply (IH s1); [ | exact H].
    exact (reachable_reduce _ Hs E).
Qed.

End Reachability.

(** What [orElse] returns is what the reduction gave unless it threw. *)
Lemma orElse_reachable (hi : Z) (seed : Q) (r : result State) (d : State) :
  (forall s, r = Ok s -> reachable hi seed s) ->
  reachable hi seed d ->
  reachable hi seed (orElse r d).
Proof.
  intros Hr Hd. destruct r as [s | ]; simpl; [apply Hr; reflexivity | exact Hd].
Qed.

Ltac peel H :=
  repeat match type of H with
  | andThen _ _ = Ok _ =>
      let s := fresh "s" in
      let H1 := fresh "H" in
      apply andThen_Ok in H; destruct H as [s [H H1]]; cbv beta in H1, H
  end.

Ltac reach_by :=
  match goal with
  | H : reduceState ?s _ = Ok ?s' |- reachable _ _ ?s' =>
      refine (reachable_reduce _ _ H)
  | H : drive _ _ ?s = Ok ?s' |- reachable _ _ ?s' =>
      refine (reachable_drive _ _ _ H)
  | H : steer _ _ ?s = Ok ?s' |- reachable _ _ ?s' =>
      refine (reachable_steer _ _ _ H)
  | |- reachable _ _ newGame => apply reachable_initial
  end.

Lemma newGame_reachable : reachable 0 (1 # 2) newGame.
Proof. apply reachable_initial. Qed.

Lemma shotFired_reachable : reachable 0 (1 # 2) shotFired.
Proof.
  apply orElse_reachable; [ | exact newGame_reachable].
  intros s H. repeat reach_by.
Qed.

Lemma firstKill_reachable : reachable 0 (1 # 2) firstKill.
Proof.
  apply orElse_reachable; [ | exact newGame_reachable].
  intros s H. peel H. repeat reach_by.
Qed.

Lemma ufoUnderFire_reachable : reachable 0 (1 # 2) ufoUnderFire.
Proof.
  apply orElse_reachable; [ | exact newGame_reachable].
  intros s H. peel H. repeat reach_by.
Qed.

Lemma levelCleared_reachable : reachable 0 (1 # 2) levelCleared.
Proof.
  apply orElse_reachable; [ | exact newGame_reachable].
  intros s H. peel H. repeat reach_by.
Qed.

(** ** The reducer, event by event *)

Lemma ViewType_eqb_eq (v w : ViewType) : ViewType_eqb v w = true <-> v = w.
Proof. destruct v, w; simpl; split; intros H; congruence. Qed.

Lemma length_zero_iff (A : Type) (l : list A) :
  (List.length l =? 0)%nat = true <-> l = [].
Proof.
  destruct l as [ | a l]; simpl; split; intros H; congruence.
Qed.

(** An empty formation: the next level, whatever the event. *)
Lemma reduceState_cleared (s : State) (e : Event) :
  bodies (aliens s) = [] -> reduceState s e = Ok (renewState s false).
Proof. unfold reduceState. intros ->. reflexivity. Qed.

Lemma reduceState_restart (s : State) :
  bodies (aliens s) <> [] -> reduceState s Restart = Ok (renewState s true).
Proof.
  unfold reduceState. intros H.
  destruct (List.length (bodies (aliens s)) =? 0)%nat eqn:E; [ | reflexivity].
  apply length_zero_iff in E. contradiction.
Qed.

(** The reducer only fails on an [AlienShoot] event. *)
Lemma reduceState_total (s : State) (e : Event) :
  e <> AlienShoot -> exists s', reduceState s e = Ok s'.
Proof.
  intros He. unfold reduceState.
  destruct (List.length (bodies (aliens s)) =? 0)%nat; [eexists; reflexivity | ].
  destruct e; try (eexists; reflexivity); try contradiction;
    destruct (gameOver s); try (eexists; reflexivity).
  destruct (negb _); eexists; reflexivity.
Qed.

(** The reducer only throws on an [AlienShoot] event. *)
Lemma reduceState_TypeError (s : State) (e : Event) :
  reduceState s e = TypeError -> e = AlienShoot.
Proof.
  unfold reduceState.
  destruct (List.length (bodies (aliens s)) =? 0)%nat; [discriminate | ].
  destruct e; try discriminate; destruct (gameOver s); try discriminate.
  - destruct (negb _); discriminate.
  - reflexivity.
Qed.

Lemma renewState_shields (s : State) (resetState : bool) :
  shields (renewState s resetState) = shields s.
Proof. reflexivity. Qed.

Lemma handleCollisions_shields (s : State) :
  shields (handleCollisions s) = shields s.
Proof. reflexivity. Qed.

Lemma tick_shields (s : State) (elapsed : number) :
  shields (tick s elapsed) = shields s.
Proof. reflexivity. Qed.

Lemma alienShoot_shields (s s' : State) :
  alienShoot s = Ok s' -> shields s' = shields s.
Proof.
  unfold alienShoot. destruct (index _ _); [ | discriminate].
  intros H. injection H as <-. reflexivity.
Qed.

Lemma reduceState_shields (s s' : State) (e : Event) :
  reduceState s e = Ok s' -> shields s' = shields s.
Proof.
  unfold reduceState.
  destruct (List.length (bodies (aliens s)) =? 0)%nat.
  { intros H. injection H as <-. apply renewState_shields. }
  destruct e; try (intros H; injection H as <-; apply renewState_shields);
    destruct (gameOver s); try (intros H; injection H as <-; reflexivity).
  - destruct (negb _); intros H; injection H as <-; reflexivity.
  - apply alienShoot_shields.
Qed.

(** C10.  The shields are a frame of the reducer: whatever the state and
    the event (a restart, a level advance, a tick with collisions or any
    other), the state the reducer gives has the shields of the state it was
    given; when it gives none, the event was [AlienShoot]. *)
Theorem shields_unchanged (s : State) (e : Event) :
  match reduceState s e with
  | Ok s' => shields s' = shields s
  | TypeError => e = AlienShoot
  end.
Proof.
  destruct (reduceState s e) as [s' | ] eqn:H.
  - exact (@reduceState_shields s s' e H).
  - exact (@reduceState_TypeError s e H).
Qed.

(** The shields of every reachable state are those made at the start. *)
Lemma reachable_shields (hi : Z) (seed : Q) (s : State) :
  reachable hi seed s -> shields s = createShields.
Proof.
  induction 1 as [ | s s' e Hs IH Hr]; [reflexivity | ].
  rewrite (@reduceState_shields s s' e Hr). exact IH.
Qed.

(** C6.  While the formation is not empty and the game is not over, a
    [Shoot] event in a state that holds a player bullet gives that very
    state: no new bullet, the same bullets, the same object counter. *)
Theorem shoot_with_bullet_in_flight (s : State) :
  bodies (aliens s) <> [] ->
  gameOver s = false ->
  (exists b, In b (bullets s) /\ viewType b = bulletPlayer) ->
  reduceState s Shoot = Ok s.
Proof.
  intros Hal Hgo [b [Hin Hb]]. unfold reduceState.
  destruct (List.length (bodies (aliens s)) =? 0)%nat eqn:E.
  { apply length_zero_iff in E. contradiction. }
  rewrite Hgo.
  assert (Hex : existsb (fun b => ViewType_eqb (viewType b) bulletPlayer)
                  (bullets s) = true).
  { apply existsb_exists. exists b. split; [exact Hin | ].
    apply ViewType_eqb_eq. exact Hb. }
  rewrite Hex. reflexivity.
Qed.

Lemma shoot_with_bullet_in_flight_witness :
  bodies (aliens shotFired) <> []
  /\ gameOver shotFired = false
  /\ (exists b, In b (bullets shotFired) /\ viewType b = bulletPlayer)
  /\ reduceState shotFired Shoot = Ok shotFired.
Proof.
  assert (H1 : bodies (aliens shotFired) <> [])
    by (vm_compute; discriminate).
  assert (H2 : gameOver shotFired = false) by reflexivity.
  assert (H3 : exists b, In b (bullets shotFired) /\ viewType b = bulletPlayer).
  { exists (nth 0 (bullets shotFired) createShip).
    split; [left; reflexivity | reflexivity]. }
  split; [exact H1 | split; [exact H2 | split; [exact H3 | ]]].
  exact (@shoot_with_bullet_in_flight shotFired H1 H2 H3).
Defined.

(** ** Renewal *)

Lemma createAliens_length (alienAcc : number) :
  List.length (bodies (createAliens alienAcc))
  = Z.to_nat (CONST.ALIEN.ROWS * CONST.ALIEN.COLS).
Proof.
  unfold createAliens. cbv zeta. cbn [bodies]. unfold tabulate.
  rewrite length_map, length_seq. reflexivity.
Qed.

Lemma createAliens_acc (alienAcc : number) :
  Forall (fun b => vel b = Vec.new CONST.ALIEN.INITIAL.SPEED 0
                   /\ acc b = Vec.new alienAcc 0)
    (bodies (createAliens alienAcc)).
Proof.
  unfold createAliens. cbv zeta. cbn [bodies]. unfold tabulate.
  apply Forall_forall. intros b Hb. apply in_map_iff in Hb.
  destruct Hb as [i [<- _]]. split; reflexivity.
Qed.

(** C5.  From a state whose formation is empty, every event gives a state
    with a whole new formation of ROWS * COLS aliens, the score of the
    state before, and an acceleration magnitude that is the difficulty
    scale (2) times the one before; each alien accelerates by it. *)
Theorem level_advance (s : State) (e : Event) :
  bodies (aliens s) = [] ->
  exists s',
    reduceState s e = Ok s'
    /\ List.length (bodies (aliens s'))
       = Z.to_nat (CONST.ALIEN.ROWS * CONST.ALIEN.COLS)
    /\ score s' = score s
    /\ accMagnitude (aliens s')
       = (CONST.DIFFICULTY.ALIEN_ACC_SCALE * accMagnitude (aliens s))%js
    /\ (accMagnitude (aliens s') == 2 * accMagnitude (aliens s))%Q
    /\ Forall (fun b => acc b = Vec.new (accMagnitude (aliens s')) 0)
         (bodies (aliens s')).
Proof.
  intros H. exists (renewState s false).
  split; [apply reduceState_cleared; exact H | ].
  unfold renewState. cbn [aliens score].
  split; [apply createAliens_length | ].
  split; [reflexivity | ]. split; [reflexivity | ].
  split; [apply mul_eq | ].
  eapply Forall_impl; [ | apply createAliens_acc].
  intros b [_ Hb]. exact Hb.
Qed.

Lemma levelCleared_empty : bodies (aliens levelCleared) = [].
Proof. vm_compute. reflexivity. Qed.

Lemma level_advance_witness :
  bodies (aliens levelCleared) = []
  /\ exists s',
       reduceState levelCleared Shoot = Ok s'
       /\ List.length (bodies (aliens s'))
          = Z.to_nat (CONST.ALIEN.ROWS * CONST.ALIEN.COLS)
       /\ score s' = score levelCleared
       /\ accMagnitude (aliens s')
          = (CONST.DIFFICULTY.ALIEN_ACC_SCALE
             * accMagnitude (aliens levelCleared))%js
       /\ (accMagnitude (aliens s')
           == 2 * accMagnitude (aliens levelCleared))%Q
       /\ Forall (fun b => acc b = Vec.new (accMagnitude (aliens s')) 0)
            (bodies (aliens s')).
Proof.
  split; [exact levelCleared_empty | ].
  exact (@level_advance levelCleared Shoot levelCleared_empty).
Defined.

(** Conjunctions of closed facts, each settled by evaluation. *)
Ltac evals :=
  lazymatch goal with
  | |- _ /\ _ => split; [vm_compute; reflexivity | evals]
  | |- _ => vm_compute; reflexivity
  end.

(** ** What [renewState] hands to the render adapter *)

Lemma renewState_exit (s : State) (resetState : bool) :
  exit (renewState s resetState)
  = map ExitBody (bullets s) ++ map ExitBody (holes s)
      ++ map ExitBody (ufo s) ++ [ExitAliensInfo (aliens s)].
Proof. reflexivity. Qed.

Lemma in_map_ExitBody (b : Body) (l : list Body) :
  In (ExitBody b) (map ExitBody l) <-> In b l.
Proof.
  rewrite in_map_iff. split.
  - intros [b' [E H]]. injection E as <-. exact H.
  - intros H. exists b. split; [reflexivity | exact H].
Qed.

(** The ship is made anew, and no bullet, hole or UFO is left. *)
Lemma renewState_resets (s : State) (resetState : bool) :
  ship (renewState s resetState) = createShip
  /\ bullets (renewState s resetState) = []
  /\ holes (renewState s resetState) = []
  /\ ufo (renewState s resetState) = [].
Proof. repeat split. Qed.

(** The bodies among the entries of the new [exit] are the old bullets,
    holes and UFOs, and no others. *)
Lemma renewState_exit_bodies (s : State) (resetState : bool) (b : Body) :
  In (ExitBody b) (exit (renewState s resetState))
  <-> In b (bullets s) \/ In b (holes s) \/ In b (ufo s).
Proof.
  rewrite renewState_exit, !in_app_iff, !in_map_ExitBody. simpl.
  split; [ | tauto].
  intros [H | [H | [H | [H | []]]]]; try tauto. discriminate H.
Qed.

(** No alien body is among them when the old bullets, holes and UFOs are
    what their view types say. *)
Lemma renewState_exit_no_alien (s : State) (resetState : bool) :
  forallb (isViewType alien) (bodies (aliens s)) = true ->
  forallb (not_ (isViewType alien)) (bullets s ++ holes s ++ ufo s) = true ->
  Forall (fun a => ~ In (ExitBody a) (exit (renewState s resetState)))
    (bodies (aliens s)).
Proof.
  intros Hal Hno. rewrite forallb_forall in Hal, Hno.
  apply Forall_forall. intros a Ha Hin.
  apply renewState_exit_bodies in Hin.
  assert (Hin' : In a (bullets s ++ holes s ++ ufo s))
    by (rewrite !in_app_iff; exact Hin).
  specialize (Hal a Ha). specialize (Hno a Hin').
  unfold not_ in Hno. rewrite Hal in Hno. discriminate Hno.
Qed.

(** C2 at a restart in mid-game.  After the first kill 23 aliens are on the
    screen and a bullet is in flight.  [Restart] renews the state; the new
    [exit] holds that bullet and the formation record itself, and none of
    the 23 alien bodies. *)
Theorem renewState_exit_misses_aliens :
  reachable 0 (1 # 2) firstKill
  /\ reduceState firstKill Restart = Ok (renewState firstKill true)
  /\ List.length (bodies (aliens firstKill)) = 23%nat
  /\ exit (renewState firstKill true)
     = map ExitBody (bullets firstKill) ++ [ExitAliensInfo (aliens firstKill)]
  /\ Forall (fun a => ~ In (ExitBody a) (exit (renewState firstKill true)))
       (bodies (aliens firstKill)).
Proof.
  split; [exact firstKill_reachable | ].
  split; [vm_compute; reflexivity | ].
  split; [vm_compute; reflexivity | ].
  split; [vm_compute; reflexivity | ].
  exact (@renewState_exit_no_alien firstKill true
           ltac:(vm_compute; reflexivity) ltac:(vm_compute; reflexivity)).
Qed.

(** ** A player bullet and a UFO *)

(** C3 at a hit.  One tick after [ufoUnderFire] the player bullet and the
    UFO overlap.  Collision handling removes the UFO, puts the UFO and the
    bullet in [exit] and adds the UFO bonus to the score; the bullet is
    still among the bullets. *)
Theorem ufo_hit_keeps_bullet :
  let i := tickMoved ufoUnderFire (time ufoUnderFire + 1)%js in
  let b := nth 0 (bullets i) createShip in
  let u := nth 0 (ufo i) createShip in
  reachable 0 (1 # 2) ufoUnderFire
  /\ reduceState ufoUnderFire (clock ufoUnderFire) = Ok (handleCollisions i)
  /\ bullets i = [b] /\ ufo i = [u]
  /\ viewType b = bulletPlayer /\ viewType u = ufo_
  /\ bodiesCollided (b, u) = true
  /\ collidedPlayerBulletsAndUfo i = [(b, u)]
  /\ ufo (handleCollisions i) = []
  /\ exit (handleCollisions i) = exit i ++ [ExitBody b; ExitBody u]
  /\ score (handleCollisions i) = (score i + CONST.UFO.POINTS)%Z
  /\ bullets (handleCollisions i) = [b].
Proof.
  cbv zeta.
  split; [exact ufoUnderFire_reachable | ].
  evals.
Qed.

(** ** The selection of the attacker *)


(** When [float] is in the half-open interval from 0 to 1 and the formation
    is not empty, the selected index is in the array and [alienShoot] gives
    a state. *)
Lemma alienShoot_total_below_one (s : State) :
  bodies (aliens s) <> [] ->
  (0 <= RNG.float (rng s))%Q -> (RNG.float (rng s) < 1)%Q ->
  exists s', alienShoot s = Ok s'.
Proof.
  intros Hne Hlo Hhi. unfold alienShoot.
  set (n := Z.of_nat (List.length (bodies (aliens s)))).
  set (f := RNG.float (rng s)) in *.
  assert (Hn : (0 < n)%Z).
  { subst n. destruct (bodies (aliens s)); [contradiction | simpl; lia]. }
  assert (Hnq : (0 < inject_Z n)%Q)
    by (change 0%Q with (inject_Z 0); rewrite <- Zlt_Qlt; exact Hn).
  assert (Hx : ((Num.ofZ n * f)%js == inject_Z n * f)%Q) by apply mul_eq.
  set (x := (Num.ofZ n * f)%js) in *.
  assert (Hx0 : (0 <= x)%Q).
  { rewrite Hx. apply Qmult_le_0_compat; [apply Qlt_le_weak; exact Hnq | exact Hlo]. }
  assert (Hx1 : (x < inject_Z n)%Q).
  { rewrite Hx. rewrite <- (Qmult_1_r (inject_Z n)) at 2.
    apply Qmult_lt_l; assumption. }
  assert (Hf0 : (0 <= Num.floor x)%Z).
  { unfold Num.floor. change 0%Z with (Qfloor 0).
    apply Qfloor_resp_le. exact Hx0. }
  assert (Hf1 : (Num.floor x < n)%Z).
  { unfold Num.floor. rewrite Zlt_Qlt.
    eapply Qle_lt_trans; [apply Qfloor_le | exact Hx1]. }
  unfold index.
  destruct (Num.floor x <? 0)%Z eqn:E; [apply Z.ltb_lt in E; lia | ].
  destruct (nth_error (bodies (aliens s)) (Z.to_nat (Num.floor x))) eqn:En.
  - eexists. reflexivity.
  - apply nth_error_None in En. subst n. lia.
Qed.

(** ** Score and high score *)

Lemma newScore_ge (s : State) : (score s <= newScore s)%Z.
Proof.
  unfold newScore, CONST.ALIEN.SCORING, CONST.UFO.POINTS. lia.
Qed.

Lemma tick_scores (s : State) (elapsed : number) :
  (score s <= score (tick s elapsed))%Z
  /\ hiScore (tick s elapsed) = Z.max (hiScore s) (score (tick s elapsed)).
Proof.
  unfold tick, handleCollisions. cbn [score hiScore].
  set (i := tickMoved s elapsed).
  assert (Hs : score i = score s) by reflexivity.
  assert (Hh : hiScore i = hiScore s) by reflexivity.
  pose proof (newScore_ge i) as Hge. rewrite Hs in Hge. rewrite Hh.
  split; [exact Hge | ].
  destruct (Z.gtb_spec (newScore i) (hiScore s)); lia.
Qed.

(** What one reduction does to the score and the high score: it keeps
    both, or (a restart) sets the score to 0 and keeps the high score, or
    (a tick) adds to the score and raises the high score to it. *)
Lemma reduceState_scores (s s' : State) (e : Event) :
  reduceState s e = Ok s' ->
  (score s' = score s /\ hiScore s' = hiScore s
   /\ (e = Restart -> bodies (aliens s) = []))
  \/ (e = Restart /\ bodies (aliens s) <> []
      /\ score s' = 0%Z /\ hiScore s' = hiScore s)
  \/ ((exists elapsed, e = Tick elapsed)
      /\ (score s <= score s')%Z
      /\ hiScore s' = Z.max (hiScore s) (score s')).
Proof.
  unfold reduceState.
  destruct (List.length (bodies (aliens s)) =? 0)%nat eqn:E.
  { apply length_zero_iff in E. intros H. injection H as <-.
    left. repeat split. intros _. exact E. }
  assert (Hne : bodies (aliens s) <> []).
  { intros H. apply length_zero_iff in H. congruence. }
  destruct e.
  - destruct (gameOver s); intros H; injection H as <-.
    + left. repeat split. discriminate.
    + right. right. split; [eexists; reflexivity | apply tick_scores].
  - destruct (gameOver s); intros H; injection H as <-;
      left; repeat split; discriminate.
  - destruct (gameOver s); [ | destruct (negb _)];
      intros H; injection H as <-; left; repeat split; discriminate.
  - destruct (gameOver s).
    + intros H; injection H as <-; left; repeat split; discriminate.
    + unfold alienShoot. destruct (index _ _); [ | discriminate].
      intros H; injection H as <-; left; repeat split; discriminate.
  - intros H. injection H as <-. right. left. repeat split. exact Hne.
  - destruct (gameOver s); intros H; injection H as <-;
      left; repeat split; discriminate.
Qed.

(** In every reachable state of a game that started from a stored high
    score that is not negative, the score is not negative and the high
    score is at least the score. *)
Lemma reachable_scores (hi : Z) (seed : Q) (s : State) :
  (0 <= hi)%Z -> reachable hi seed s ->
  (0 <= score s <= hiScore s)%Z.
Proof.
  intros Hhi. induction 1 as [ | s s' e Hs IH Hr].
  - simpl. lia.
  - apply reduceState_scores in Hr.
    destruct Hr as [[H1 [H2 _]] | [[_ [_ [H1 H2]]] | [_ [H1 H2]]]]; lia.
Qed.

(** C4, as the code has it.  In a game that started from a stored high
    score that is not negative, a reduction from a reachable state leaves
    the high score at the larger of the high score before and the score
    after; the score does not decrease under any event but [Restart];
    [Restart] from a state with aliens sets the score to 0.  A reduction
    that gives no state is one of an [AlienShoot] event. *)
Theorem score_monotone_but_restart (hi : Z) (seed : Q) (s : State) (e : Event) :
  (0 <= hi)%Z -> reachable hi seed s ->
  match reduceState s e with
  | Ok s' =>
      hiScore s' = Z.max (hiScore s) (score s')
      /\ (e <> Restart -> (score s <= score s')%Z)
      /\ (e = Restart -> bodies (aliens s) = [] -> score s' = score s)
      /\ (e = Restart -> bodies (aliens s) <> [] -> score s' = 0%Z)
  | TypeError => e = AlienShoot
  end.
Proof.
  intros Hhi Hs. pose proof (reachable_scores Hhi Hs) as Hinv.
  destruct (reduceState s e) as [s' | ] eqn:Hr;
    [ | exact (@reduceState_TypeError s e Hr)].
  apply reduceState_scores in Hr.
  destruct Hr as [[H1 [H2 H3]] | [[He [Hne [H1 H2]]] | [[t He] [H1 H2]]]].
  - repeat split; try lia. intros He Hne. exfalso. exact (Hne (H3 He)).
  - repeat split; try lia; try contradiction.
  - subst e. repeat split; try lia; try discriminate.
Qed.

Lemma score_monotone_but_restart_witness :
  (0 <= 0)%Z /\ reachable 0 (1 # 2) firstKill
  /\ match reduceState firstKill Restart with
     | Ok s' =>
         hiScore s' = Z.max (hiScore firstKill) (score s')
         /\ (Restart <> Restart -> (score firstKill <= score s')%Z)
         /\ (Restart = Restart -> bodies (aliens firstKill) = [] ->
             score s' = score firstKill)
         /\ (Restart = Restart -> bodies (aliens firstKill) <> [] ->
             score s' = 0%Z)
     | TypeError => Restart = AlienShoot
     end.
Proof.
  split; [lia | split; [exact firstKill_reachable | ]].
  exact (@score_monotone_but_restart 0 (1 # 2) firstKill Restart
           ltac:(lia) firstKill_reachable).
Defined.

(** With a negative stored high score the high score stays below the
    score: the premise of the theorem is needed. *)
Example negative_stored_hiScore :
  reduceState (initialState (-5) (1 # 2)) (Move 0)
  = Ok (orElse (reduceState (initialState (-5) (1 # 2)) (Move 0)) newGame)
  /\ hiScore (orElse (reduceState (initialState (-5) (1 # 2)) (Move 0)) newGame)
     = (-5)%Z
  /\ score (orElse (reduceState (initialState (-5) (1 # 2)) (Move 0)) newGame)
     = 0%Z.
Proof. evals. Qed.

(** C4, as it is worded, fails.  After the first kill the score is 10;
    the state is reachable; [Restart] gives a state whose score is 0. *)
Lemma score_drops_at_restart :
  reachable 0 (1 # 2) firstKill
  /\ score firstKill = 10%Z
  /\ reduceState firstKill Restart = Ok (renewState firstKill true)
  /\ ~ (score (renewState firstKill true) >= score firstKill)%Z.
Proof.
  split; [exact firstKill_reachable | ].
  split; [vm_compute; reflexivity | ].
  split; [vm_compute; reflexivity | ].
  vm_compute. intros H. apply H. reflexivity.
Qed.

(** ** The rigid formation *)

Lemma createAliens_anchor (alienAcc : number) :
  vel (current (movementPos (createAliens alienAcc)))
  = Vec.new CONST.ALIEN.INITIAL.SPEED 0
  /\ acc (current (movementPos (createAliens alienAcc)))
     = Vec.new CONST.ALIEN.INITIAL.ACC 0.
Proof. split; reflexivity. Qed.

Lemma createAliens_first (alienAcc : number) :
  exists b l, bodies (createAliens alienAcc) = b :: l.
Proof.
  unfold createAliens. cbv zeta. cbn [bodies]. unfold tabulate.
  eexists. eexists. reflexivity.
Qed.

(** A new formation is rigid exactly when it is given the acceleration
    that its anchor is always given: the initial one. *)
Lemma createAliens_rigid_iff (alienAcc : number) :
  rigid (createAliens alienAcc) <-> alienAcc = CONST.ALIEN.INITIAL.ACC.
Proof.
  unfold rigid.
  destruct (createAliens_anchor alienAcc) as [Hv Ha]. rewrite Hv, Ha.
  split.
  - intros H. destruct (createAliens_first alienAcc) as [b [l E]].
    pose proof (createAliens_acc alienAcc) as Hall.
    rewrite E in H, Hall.
    apply Forall_inv in H. apply Forall_inv in Hall.
    destruct H as [_ H]. destruct Hall as [_ Hall].
    rewrite Hall in H. injection H as H. exact H.
  - intros ->. apply createAliens_acc.
Qed.

Lemma renewState_aliens (s : State) (resetState : bool) :
  aliens (renewState s resetState)
  = createAliens
      (if resetState then CONST.ALIEN.INITIAL.ACC
       else (CONST.DIFFICULTY.ALIEN_ACC_SCALE * accMagnitude (aliens s))%js).
Proof. reflexivity. Qed.

Lemma moveAliens_rigid (a : AliensInfo) : rigid a -> rigid (moveAliens a).
Proof.
  unfold rigid, moveAliens. cbv zeta. intros H.
  match goal with
  | |- context [if ?c then map shiftAlienDown _ else _] => destruct c
  end; cbn [bodies movementPos current];
    rewrite ?Forall_map; (eapply Forall_impl; [ | exact H]);
    intros b [Hv Ha]; cbn [vel acc shiftAlienDown shiftAlienX moveBody];
    rewrite Hv, Ha; split; reflexivity.
Qed.

Lemma Forall_filter_keep (A : Type) (P : A -> Prop) (f : A -> bool) (l : list A) :
  Forall P l -> Forall P (filter f l).
Proof.
  rewrite !Forall_forall. intros H x Hx. apply filter_In in Hx.
  apply H. tauto.
Qed.

Lemma handleCollisions_rigid (s : State) :
  rigid (aliens s) -> rigid (aliens (handleCollisions s)).
Proof.
  unfold rigid, handleCollisions. cbn [aliens bodies movementPos].
  unfold remainingAliens. apply Forall_filter_keep.
Qed.

Lemma tick_rigid (s : State) (elapsed : number) :
  rigid (aliens s) -> rigid (aliens (tick s elapsed)).
Proof.
  intros H. unfold tick. apply handleCollisions_rigid.
  unfold tickMoved. cbv zeta. cbn [aliens]. apply moveAliens_rigid. exact H.
Qed.

(** Within a level, and over a restart, the formation stays rigid and
    keeps its acceleration magnitude or goes back to the initial one. *)
Lemma reduceState_rigid (s s' : State) (e : Event) :
  bodies (aliens s) <> [] ->
  reduceState s e = Ok s' ->
  (rigid (aliens s) -> rigid (aliens s'))
  /\ (accMagnitude (aliens s') = accMagnitude (aliens s)
      \/ aliens s' = createAliens CONST.ALIEN.INITIAL.ACC).
Proof.
  intros Hne. unfold reduceState.
  destruct (List.length (bodies (aliens s)) =? 0)%nat eqn:E.
  { apply length_zero_iff in E. contradiction. }
  destruct e.
  - destruct (gameOver s); intros H; injection H as <-.
    + split; [tauto | left; reflexivity].
    + split; [apply tick_rigid | left; reflexivity].
  - destruct (gameOver s); intros H; injection H as <-;
      (split; [tauto | left; reflexivity]).
  - destruct (gameOver s); [ | destruct (negb _)];
      intros H; injection H as <-; (split; [tauto | left; reflexivity]).
  - destruct (gameOver s).
    + intros H; injection H as <-. split; [tauto | left; reflexivity].
    + unfold alienShoot. destruct (index _ _); [ | discriminate].
      intros H; injection H as <-. split; [tauto | left; reflexivity].
  - intros H. injection H as <-. rewrite renewState_aliens.
    split; [ | right; reflexivity].
    intros _. apply createAliens_rigid_iff. reflexivity.
  - destruct (gameOver s); intros H; injection H as <-;
      (split; [tauto | left; reflexivity]).
Qed.

(** The formation of a reachable state is rigid as long as its
    acceleration magnitude is the initial one: through the first level, and
    again after every restart. *)
Lemma reachable_rigid_at_initial_acc (hi : Z) (seed : Q) (s : State) :
  reachable hi seed s ->
  accMagnitude (aliens s) = CONST.ALIEN.INITIAL.ACC ->
  rigid (aliens s).
Proof.
  induction 1 as [ | s s' e Hs IH Hr]; intros Hacc.
  - apply createAliens_rigid_iff. reflexivity.
  - destruct (bodies (aliens s)) as [ | b l] eqn:Eb.
    + rewrite (@reduceState_cleared s e Eb) in Hr. injection Hr as <-.
      rewrite renewState_aliens in *. apply createAliens_rigid_iff.
      exact Hacc.
    + assert (Hne : bodies (aliens s) <> []) by (rewrite Eb; discriminate).
      destruct (@reduceState_rigid s s' e Hne Hr) as [Hrig [Hsame | Hnew]].
      * apply Hrig. apply IH. congruence.
      * rewrite Hnew. apply createAliens_rigid_iff. reflexivity.
Qed.

(** At a level advance the new formation is rigid only if the scaled
    magnitude happens to be the initial one. *)
Lemma level_advance_rigid_iff (s : State) (e : Event) :
  bodies (aliens s) = [] ->
  reduceState s e = Ok (renewState s false)
  /\ (rigid (aliens (renewState s false))
      <-> (CONST.DIFFICULTY.ALIEN_ACC_SCALE * accMagnitude (aliens s))%js
          = CONST.ALIEN.INITIAL.ACC).
Proof.
  intros H. split; [apply reduceState_cleared; exact H | ].
  rewrite renewState_aliens. apply createAliens_rigid_iff.
Qed.

Lemma levelCleared_accMagnitude :
  accMagnitude (aliens levelCleared) = CONST.ALIEN.INITIAL.ACC.
Proof. vm_compute. reflexivity. Qed.

(** C1 at the first level advance.  [levelCleared] is reachable, its
    formation is empty and its magnitude is the initial 0.0001.  The next
    event gives the second level: 24 aliens, each with the velocity of the
    anchor and the acceleration (1/5000, 0), that is (0.0002, 0), around an
    anchor whose acceleration is (0.0001, 0).  The formation is not rigid. *)
Theorem rigidity_lost_at_level_advance :
  let s' := renewState levelCleared false in
  let anchor := current (movementPos (aliens s')) in
  reachable 0 (1 # 2) levelCleared
  /\ bodies (aliens levelCleared) = []
  /\ reduceState levelCleared (clock levelCleared) = Ok s'
  /\ reachable 0 (1 # 2) s'
  /\ List.length (bodies (aliens s')) = 24%nat
  /\ Forall (fun b => vel b = vel anchor /\ acc b = Vec.new (1 # 5000) 0)
       (bodies (aliens s'))
  /\ acc anchor = Vec.new (1 # 10000) 0
  /\ ~ rigid (aliens s').
Proof.
  cbv zeta.
  pose proof levelCleared_reachable as Hreach.
  pose proof levelCleared_empty as Hemp.
  pose proof (@reduceState_cleared levelCleared (clock levelCleared) Hemp)
    as Hred.
  assert (Hal : aliens (renewState levelCleared false)
                = createAliens (1 # 5000)).
  { rewrite renewState_aliens, levelCleared_accMagnitude. reflexivity. }
  rewrite Hal.
  split; [exact Hreach | ]. split; [exact Hemp | ].
  split; [exact Hred | ].
  split; [exact (reachable_reduce _ Hreach Hred) | ].
  split; [reflexivity | ].
  split; [apply createAliens_acc | ].
  split; [reflexivity | ].
  intros H. apply createAliens_rigid_iff in H. discriminate H.
Qed.

(** * Further properties of the code *)

(** ** The list helpers *)

Lemma existsb_false (A : Type) (f : A -> bool) (l : list A) :
  existsb f l = false <-> forall y, In y l -> f y = false.
Proof.
  induction l as [ | a l IH]; simpl.
  - split; [intros _ y [] | reflexivity].
  - rewrite orb_false_iff, IH. split.
    + intros [Ha Hl] y [<- | Hy]; [exact Ha | exact (Hl y Hy)].
    + intros H. split; [apply H; left; reflexivity | ].
      intros y Hy. apply H. right. exact Hy.
Qed.

Lemma except_In (A : Type) (eq : A -> A -> bool) (a b : list A) (x : A) :
  In x (except eq a b) <-> In x a /\ forall y, In y b -> eq x y = false.
Proof.
  unfold except, not_, elem.
  rewrite filter_In, negb_true_iff, existsb_false. reflexivity.
Qed.

Lemma collidedBodies_In (f : Body * Body -> bool) (aArr bArr : list Body)
    (a b : Body) :
  In (a, b) (collidedBodies f aArr bArr)
  <-> In a aArr /\ In b bArr /\ f (a, b) = true.
Proof.
  unfold collidedBodies, flatMap. rewrite filter_In, in_flat_map. split.
  - intros [[a' [Ha Hin]] Hf]. apply in_map_iff in Hin.
    destruct Hin as [b' [E Hb]]. injection E as -> ->. tauto.
  - intros [Ha [Hb Hf]]. split; [ | exact Hf].
    exists a. split; [exact Ha | ]. apply in_map_iff.
    exists b. split; [reflexivity | exact Hb].
Qed.

(** X1.  [except(eq)(a)(b)] holds exactly the elements of [a] that [eq]
    matches with no element of [b]; it keeps their order and their
    repetitions, it gives [a] back when [b] is empty, and it never grows. *)
Theorem except_keeps_the_unmatched (A : Type) (eq : A -> A -> bool)
    (a b : list A) :
  (forall x, In x (except eq a b)
             <-> In x a /\ forall y, In y b -> eq x y = false)
  /\ except eq a [] = a
  /\ (forall a1 a2, except eq (a1 ++ a2) b = except eq a1 b ++ except eq a2 b)
  /\ (List.length (except eq a b) <= List.length a)%nat.
Proof.
  split; [intros x; apply except_In | ].
  split.
  { unfold except, not_, elem. simpl.
    induction a as [ | x a IH]; simpl; [reflexivity | ]. rewrite IH.
    reflexivity. }
  split; [intros a1 a2; unfold except; apply filter_app | ].
  unfold except. apply filter_length_le.
Qed.

(** X2.  [collidedBodies(f)(aArr)(bArr)] holds exactly the pairs of a body
    of [aArr] and a body of [bArr] that [f] accepts: every colliding pair
    is found, and nothing else. *)
Theorem collidedBodies_finds_the_pairs (f : Body * Body -> bool)
    (aArr bArr : list Body) :
  (forall a b, In (a, b) (collidedBodies f aArr bArr)
               <-> In a aArr /\ In b bArr /\ f (a, b) = true)
  /\ collidedBodies f [] bArr = []
  /\ collidedBodies f aArr [] = [].
Proof.
  split; [intros a b; apply collidedBodies_In | ].
  split; [reflexivity | ].
  unfold collidedBodies, flatMap.
  induction aArr as [ | a l IH]; simpl; [reflexivity | exact IH].
Qed.

(** ** Collision handling, pair by pair *)

Lemma sameId_refl (b : Body) : sameId b b = true.
Proof. unfold sameId. apply String.eqb_refl. Qed.

Lemma cut_subset (l ex : list Body) (b : Body) : In b (cut l ex) -> In b l.
Proof. unfold cut. rewrite except_In. tauto. Qed.

(** A body of the list of expired bodies is cut, with every body that has
    its id. *)
Lemma cut_removes (l ex : list Body) (b b' : Body) :
  In b' ex -> sameId b b' = true -> ~ In b (cut l ex).
Proof.
  unfold cut. rewrite except_In. intros Hin Hid [_ H].
  rewrite (H b' Hin) in Hid. discriminate Hid.
Qed.

Lemma handleCollisions_bullets_subset (s : State) (b : Body) :
  In b (bullets (handleCollisions s)) -> In b (bullets s).
Proof.
  unfold handleCollisions. cbn [bullets]. intros H.
  apply cut_subset in H. apply cut_subset in H. apply cut_subset in H.
  exact H.
Qed.

Lemma handleCollisions_exit (s : State) :
  exit (handleCollisions s)
  = exit s ++ map ExitBody (expiredAliens s)
      ++ map ExitBody (expiredBullets s) ++ map ExitBody (expiredUfos s).
Proof. reflexivity. Qed.

Lemma expiredBullets_exit (s : State) (b : Body) :
  In b (expiredBullets s) -> In (ExitBody b) (exit (handleCollisions s)).
Proof.
  intros H. rewrite handleCollisions_exit, !in_app_iff, !in_map_ExitBody.
  tauto.
Qed.

Lemma length_pos_of_In (A : Type) (x : A) (l : list A) :
  In x l -> (1 <= List.length l)%nat.
Proof. destruct l; simpl; [intros [] | intros _; lia]. Qed.

(** X3.  A player bullet that overlaps an alien: collision handling takes
    the bullet out of the bullets and the alien out of the formation, puts
    both in [exit], and adds at least the kill bonus to the score. *)
Theorem alien_hit_removes_bullet_and_alien (s : State) (b a : Body) :
  In b (bullets s) -> viewType b = bulletPlayer ->
  In a (bodies (aliens s)) -> bodiesCollided (b, a) = true ->
  ~ In b (bullets (handleCollisions s))
  /\ ~ In a (bodies (aliens (handleCollisions s)))
  /\ In (ExitBody b) (exit (handleCollisions s))
  /\ In (ExitBody a) (exit (handleCollisions s))
  /\ (score s + CONST.ALIEN.SCORING <= score (handleCollisions s))%Z.
Proof.
  intros Hb Hk Ha Hc.
  assert (Hpair : In (b, a) (collidedPlayerBulletsAndAliens s)).
  { unfold collidedPlayerBulletsAndAliens, checkCollision.
    apply collidedBodies_In. split; [ | tauto].
    unfold playerBullets. apply filter_In. split; [exact Hb | ].
    unfold isViewType. rewrite Hk. reflexivity. }
  assert (HbE : In b (expiredBulletsFromAliens s)).
  { unfold expiredBulletsFromAliens. apply in_map_iff.
    exists (b, a). split; [reflexivity | exact Hpair]. }
  assert (HaE : In a (expiredAliens s)).
  { unfold expiredAliens. apply in_map_iff.
    exists (b, a). split; [reflexivity | exact Hpair]. }
  split.
  { unfold handleCollisions. cbn [bullets]. intros H.
    apply cut_subset in H. revert H.
    exact (@cut_removes _ _ b b HbE (sameId_refl b)). }
  split.
  { unfold handleCollisions. cbn [aliens bodies]. unfold remainingAliens.
    intros H. apply filter_In in H. destruct H as [_ H].
    unfold not_, elem in H. apply negb_true_iff in H.
    rewrite existsb_false in H. pose proof (H a HaE) as R.
    rewrite sameId_refl in R. discriminate R. }
  split.
  { apply expiredBullets_exit. unfold expiredBullets.
    rewrite !in_app_iff. tauto. }
  split.
  { rewrite handleCollisions_exit, !in_app_iff, !in_map_ExitBody. tauto. }
  unfold handleCollisions. cbn [score]. unfold newScore.
  apply length_pos_of_In in Hpair.
  unfold CONST.ALIEN.SCORING, CONST.UFO.POINTS. lia.
Qed.

Ltac by_nth :=
  apply nth_In; apply Nat.ltb_lt; vm_compute; reflexivity.

Lemma alien_hit_removes_bullet_and_alien_witness :
  let s := moved alienUnderFire in
  let b := nth 0 (bullets s) createShip in
  let a := nth 22 (bodies (aliens s)) createShip in
  In b (bullets s) /\ viewType b = bulletPlayer
  /\ In a (bodies (aliens s)) /\ bodiesCollided (b, a) = true
  /\ ~ In b (bullets (handleCollisions s))
  /\ ~ In a (bodies (aliens (handleCollisions s)))
  /\ In (ExitBody b) (exit (handleCollisions s))
  /\ In (ExitBody a) (exit (handleCollisions s))
  /\ (score s + CONST.ALIEN.SCORING <= score (handleCollisions s))%Z.
Proof.
  cbv zeta.
  assert (H1 : In (nth 0 (bullets (moved alienUnderFire)) createShip)
                 (bullets (moved alienUnderFire))) by by_nth.
  assert (H2 : viewType (nth 0 (bullets (moved alienUnderFire)) createShip)
               = bulletPlayer) by (vm_compute; reflexivity).
  assert (H3 : In (nth 22 (bodies (aliens (moved alienUnderFire))) createShip)
                 (bodies (aliens (moved alienUnderFire)))) by by_nth.
  assert (H4 : bodiesCollided
                 (nth 0 (bullets (moved alienUnderFire)) createShip,
                  nth 22 (bodies (aliens (moved alienUnderFire))) createShip)
               = true) by (vm_compute; reflexivity).
  split; [exact H1 | split; [exact H2 | split; [exact H3 | split; [exact H4 | ]]]].
  exact (@alien_hit_removes_bullet_and_alien _ _ _ H1 H2 H3 H4).
Defined.

Lemma mapi_from_length (T U : Type) (f : T -> Z -> U) (l : list T) :
  forall i, List.length (mapi_from i f l) = List.length l.
Proof.
  induction l as [ | v l IH]; simpl; intros i; [reflexivity | ].
  rewrite IH. reflexivity.
Qed.

Lemma mapi_from_In (T U : Type) (f : T -> Z -> U) (l : list T) (v : T) :
  forall i, In v l ->
  exists k, (i <= k < i + Z.of_nat (List.length l))%Z
            /\ In (f v k) (mapi_from i f l).
Proof.
  induction l as [ | w l IH]; simpl; intros i H; [destruct H | ].
  destruct H as [-> | H].
  - exists i. split; [lia | left; reflexivity].
  - destruct (IH (i + 1)%Z H) as [k [Hk Hin]].
    exists k. split; [lia | right; exact Hin].
Qed.

Lemma collidedBulletsFromShields_In (s : State) (b : Body) :
  In b (collidedBulletsFromShields s)
  <-> In b (bullets s)
      /\ exists sh, In sh (shields s) /\ bodiesCollided (b, sh) = true.
Proof.
  unfold collidedBulletsFromShields, checkCollision. rewrite in_map_iff. split.
  - intros [[b' sh] [E H]]. simpl in E. subst b'.
    apply collidedBodies_In in H. destruct H as [Hb [Hs Hc]].
    split; [exact Hb | exists sh; tauto].
  - intros [Hb [sh [Hs Hc]]]. exists (b, sh). split; [reflexivity | ].
    apply collidedBodies_In. tauto.
Qed.

Lemma collidedBulletsFromHoles_In (s : State) (b : Body) :
  In b (collidedBulletsFromHoles s)
  <-> In b (collidedBulletsFromShields s)
      /\ exists h, In h (holes s) /\ bodiesCollided (b, h) = true.
Proof.
  unfold collidedBulletsFromHoles, checkCollision. rewrite in_map_iff. split.
  - intros [[b' h] [E H]]. simpl in E. subst b'.
    apply collidedBodies_In in H. destruct H as [Hb [Hs Hc]].
    split; [exact Hb | exists h; tauto].
  - intros [Hb [h [Hs Hc]]]. exists (b, h). split; [reflexivity | ].
    apply collidedBodies_In. tauto.
Qed.

(** X4.  A bullet that overlaps a shield, when no bullet of its id overlaps
    a hole: collision handling takes it out of the bullets, puts it in
    [exit], and makes a hole for it, numbered from the object counter and
    placed at the tip of the bullet, centred on it. *)
Theorem shield_absorbs_bullet (s : State) (b sh : Body) :
  In b (bullets s) -> In sh (shields s) -> bodiesCollided (b, sh) = true ->
  (forall b' h, In b' (bullets s) -> sameId b b' = true ->
                In h (holes s) -> bodiesCollided (b', h) = false) ->
  ~ In b (bullets (handleCollisions s))
  /\ In (ExitBody b) (exit (handleCollisions s))
  /\ exists k : Z,
       (objCount s <= k < objCount (handleCollisions s))%Z
       /\ In (createBody hole (Some k) (time s) CONST.BULLET_HOLE.DIMS
                (Vec.add (pos b)
                   (Vec.new
                      (width (dims b) / 2 - width CONST.BULLET_HOLE.DIMS / 2)%js
                      (if (Num.sign (Vec.y (vel b)) >? 0)%js
                       then (height CONST.BULLET_HOLE.DIMS
                             - height CONST.BULLET_HOLE.DIMS / 2)%js
                       else 0)))
                Vec.Zero Vec.Zero)
            (holes (handleCollisions s)).
Proof.
  intros Hb Hs Hc Hfree.
  assert (HbS : In b (collidedBulletsFromShields s)).
  { apply collidedBulletsFromShields_In. split; [exact Hb | exists sh; tauto]. }
  assert (HbE : In b (expiredBulletsFromShields s)).
  { unfold expiredBulletsFromShields, cut. apply except_In.
    split; [exact HbS | ]. intros y Hy.
    apply collidedBulletsFromHoles_In in Hy. destruct Hy as [Hy [h [Hh Hyh]]].
    apply collidedBulletsFromShields_In in Hy. destruct Hy as [Hy _].
    destruct (sameId b y) eqn:E; [ | reflexivity].
    rewrite (Hfree y h Hy E Hh) in Hyh. discriminate Hyh. }
  split.
  { unfold handleCollisions. cbn [bullets]. intros H.
    apply cut_subset in H. apply cut_subset in H. revert H.
    exact (@cut_removes _ _ b b HbE (sameId_refl b)). }
  split.
  { apply expiredBullets_exit. unfold expiredBullets.
    rewrite !in_app_iff. tauto. }
  destruct (@mapi_from_In _ _
              (fun (b : Body) (i : Z) =>
                 createBody hole (Some (objCount s + i)%Z) (time s)
                   CONST.BULLET_HOLE.DIMS
                   (Vec.add (pos b)
                      (Vec.new
                         (width (dims b) / 2
                          - width CONST.BULLET_HOLE.DIMS / 2)%js
                         (if (Num.sign (Vec.y (vel b)) >? 0)%js
                          then (height CONST.BULLET_HOLE.DIMS
                                - height CONST.BULLET_HOLE.DIMS / 2)%js
                          else 0)))
                   Vec.Zero Vec.Zero)
              (expiredBulletsFromShields s) b 0%Z HbE) as [k [Hk Hin]].
  exists (objCount s + k)%Z. split.
  - unfold handleCollisions. cbn [objCount]. unfold currentHoleCount.
    unfold holesBullets, mapi. rewrite mapi_from_length. lia.
  - unfold handleCollisions. cbn [holes]. apply in_app_iff. right.
    exact Hin.
Qed.

(** X5.  A bullet that overlaps a shield and an existing hole is not
    absorbed: it is not among the bullets that the shields expire, so no
    hole is made for it.  The new holes are as many as the bullets the
    shields expire, and the object counter grows by as much. *)
Theorem bullet_in_hole_passes (s : State) (b sh h : Body) :
  In b (bullets s) -> In sh (shields s) -> bodiesCollided (b, sh) = true ->
  In h (holes s) -> bodiesCollided (b, h) = true ->
  ~ In b (expiredBulletsFromShields s)
  /\ List.length (holes (handleCollisions s))
     = (List.length (holes s)
        + List.length (expiredBulletsFromShields s))%nat
  /\ objCount (handleCollisions s)
     = (objCount s
        + Z.of_nat (List.length (expiredBulletsFromShields s)))%Z.
Proof.
  intros Hb Hs Hc Hh Hch.
  assert (HbS : In b (collidedBulletsFromShields s)).
  { apply collidedBulletsFromShields_In. split; [exact Hb | exists sh; tauto]. }
  assert (HbH : In b (collidedBulletsFromHoles s)).
  { apply collidedBulletsFromHoles_In. split; [exact HbS | exists h; tauto]. }
  split.
  { unfold expiredBulletsFromShields. apply (@cut_removes _ _ b b HbH).
    apply sameId_refl. }
  unfold handleCollisions. cbn [holes objCount].
  unfold currentHoleCount, holesBullets, mapi.
  rewrite length_app, mapi_from_length. split; reflexivity.
Qed.

Lemma shield_absorbs_bullet_witness :
  let s := moved bulletAtShield in
  let b := nth 0 (bullets s) createShip in
  let sh := nth 2 (shields s) createShip in
  In b (bullets s) /\ In sh (shields s) /\ bodiesCollided (b, sh) = true
  /\ (forall b' h, In b' (bullets s) -> sameId b b' = true ->
                   In h (holes s) -> bodiesCollided (b', h) = false)
  /\ ~ In b (bullets (handleCollisions s))
  /\ In (ExitBody b) (exit (handleCollisions s))
  /\ exists k : Z,
       (objCount s <= k < objCount (handleCollisions s))%Z
       /\ In (createBody hole (Some k) (time s) CONST.BULLET_HOLE.DIMS
                (Vec.add (pos b)
                   (Vec.new
                      (width (dims b) / 2 - width CONST.BULLET_HOLE.DIMS / 2)%js
                      (if (Num.sign (Vec.y (vel b)) >? 0)%js
                       then (height CONST.BULLET_HOLE.DIMS
                             - height CONST.BULLET_HOLE.DIMS / 2)%js
                       else 0)))
                Vec.Zero Vec.Zero)
            (holes (handleCollisions s)).
Proof.
  cbv zeta.
  assert (H1 : In (nth 0 (bullets (moved bulletAtShield)) createShip)
                 (bullets (moved bulletAtShield))) by by_nth.
  assert (H2 : In (nth 2 (shields (moved bulletAtShield)) createShip)
                 (shields (moved bulletAtShield))) by by_nth.
  assert (H3 : bodiesCollided
                 (nth 0 (bullets (moved bulletAtShield)) createShip,
                  nth 2 (shields (moved bulletAtShield)) createShip)
               = true) by (vm_compute; reflexivity).
  assert (H4 : forall b' h, In b' (bullets (moved bulletAtShield)) ->
                 sameId (nth 0 (bullets (moved bulletAtShield)) createShip) b'
                 = true ->
                 In h (holes (moved bulletAtShield)) ->
                 bodiesCollided (b', h) = false).
  { intros b' h _ _ Hh.
    assert (E : holes (moved bulletAtShield) = []) by (vm_compute; reflexivity).
    rewrite E in Hh. destruct Hh. }
  split; [exact H1 | split; [exact H2 | split; [exact H3 | split; [exact H4 | ]]]].
  exact (@shield_absorbs_bullet _ _ _ H1 H2 H3 H4).
Defined.

Lemma bullet_in_hole_passes_witness :
  let s := moved bulletAtHole in
  let b := nth 0 (bullets s) createShip in
  let sh := nth 2 (shields s) createShip in
  let h := nth 0 (holes s) createShip in
  In b (bullets s) /\ In sh (shields s) /\ bodiesCollided (b, sh) = true
  /\ In h (holes s) /\ bodiesCollided (b, h) = true
  /\ ~ In b (expiredBulletsFromShields s)
  /\ List.length (holes (handleCollisions s))
     = (List.length (holes s)
        + List.length (expiredBulletsFromShields s))%nat
  /\ objCount (handleCollisions s)
     = (objCount s
        + Z.of_nat (List.length (expiredBulletsFromShields s)))%Z.
Proof.
  cbv zeta.
  assert (H1 : In (nth 0 (bullets (moved bulletAtHole)) createShip)
                 (bullets (moved bulletAtHole))) by by_nth.
  assert (H2 : In (nth 2 (shields (moved bulletAtHole)) createShip)
                 (shields (moved bulletAtHole))) by by_nth.
  assert (H3 : bodiesCollided
                 (nth 0 (bullets (moved bulletAtHole)) createShip,
                  nth 2 (shields (moved bulletAtHole)) createShip)
               = true) by (vm_compute; reflexivity).
  assert (H4 : In (nth 0 (holes (moved bulletAtHole)) createShip)
                 (holes (moved bulletAtHole))) by by_nth.
  assert (H5 : bodiesCollided
                 (nth 0 (bullets (moved bulletAtHole)) createShip,
                  nth 0 (holes (moved bulletAtHole)) createShip)
               = true) by (vm_compute; reflexivity).
  split; [exact H1 | split; [exact H2 | split; [exact H3 | ]]].
  split; [exact H4 | split; [exact H5 | ]].
  exact (@bullet_in_hole_passes _ _ _ _ H1 H2 H3 H4 H5).
Defined.

(** ** The reducer, branch by branch *)

Lemma alienShoot_Ok (s s' : State) :
  alienShoot s = Ok s' ->
  exists attacker,
    In attacker (bodies (aliens s)) /\ s' = withAlienBullet s attacker.
Proof.
  unfold alienShoot.
  destruct (index _ _) as [attacker | ] eqn:E; [ | discriminate].
  intros H. injection H as <-. exists attacker. split; [ | reflexivity].
  unfold index in E. destruct (_ <? 0)%Z; [discriminate | ].
  exact (nth_error_In _ _ E).
Qed.

(** Every reduction that gives a state takes one of the branches of the
    reducer, in the order in which it tries them. *)
Lemma reduceState_cases (s s' : State) (e : Event) :
  reduceState s e = Ok s' ->
  (bodies (aliens s) = [] /\ s' = renewState s false)
  \/ (bodies (aliens s) <> [] /\ e = Restart /\ s' = renewState s true)
  \/ (bodies (aliens s) <> [] /\ e <> Restart /\ gameOver s = true /\ s' = s)
  \/ (bodies (aliens s) <> [] /\ gameOver s = false
      /\ ((exists d, e = Move d /\ s' = withShipVelocity s d)
          \/ (e = Shoot /\ playerBulletInFlight s = false
              /\ s' = withPlayerBullet s)
          \/ (e = Shoot /\ playerBulletInFlight s = true /\ s' = s)
          \/ (e = AlienShoot
              /\ exists attacker, In attacker (bodies (aliens s))
                                  /\ s' = withAlienBullet s attacker)
          \/ (e = UfoSpawn /\ s' = withUfo s)
          \/ (exists elapsed, e = Tick elapsed /\ s' = tick s elapsed))).
Proof.
  unfold reduceState.
  destruct (List.length (bodies (aliens s)) =? 0)%nat eqn:E.
  { apply length_zero_iff in E. intros H. injection H as <-. left. tauto. }
  assert (Hne : bodies (aliens s) <> []).
  { intros H. apply length_zero_iff in H. congruence. }
  intros H. right.
  destruct e.
  - right. destruct (gameOver s) eqn:G; injection H as <-.
    + left. repeat split; congruence.
    + right. split; [exact Hne | split; [reflexivity | ]].
      do 5 right. eexists. split; reflexivity.
  - right. destruct (gameOver s) eqn:G; injection H as <-.
    + left. repeat split; congruence.
    + right. split; [exact Hne | split; [reflexivity | ]].
      left. eexists. split; [reflexivity | ].
      unfold withShipVelocity. rewrite G. reflexivity.
  - right. fold (playerBulletInFlight s) in H.
    destruct (gameOver s) eqn:G.
    + injection H as <-. left. repeat split; congruence.
    + right. split; [exact Hne | split; [reflexivity | ]].
      destruct (playerBulletInFlight s) eqn:P; simpl in H; injection H as <-.
      * right. right. left. tauto.
      * right. left. split; [reflexivity | split; [reflexivity | ]].
        unfold withPlayerBullet, playerBullet. rewrite G. reflexivity.
  - right. destruct (gameOver s) eqn:G.
    + injection H as <-. left. repeat split; congruence.
    + right. split; [exact Hne | split; [reflexivity | ]].
      do 3 right. left. split; [reflexivity | ].
      apply alienShoot_Ok in H. destruct H as [attacker [Hin ->]].
      exists attacker. split; [exact Hin | ].
      unfold withAlienBullet. reflexivity.
  - injection H as <-. left. tauto.
  - right. destruct (gameOver s) eqn:G; injection H as <-.
    + left. repeat split; congruence.
    + right. split; [exact Hne | split; [reflexivity | ]].
      do 4 right. left. split; [reflexivity | ].
      unfold withUfo, newUfo. rewrite G. reflexivity.
Qed.

Ltac reducer_cases H :=
  apply reduceState_cases in H;
  destruct H as
    [[?Hemp ->]
    | [[?Hne [-> ->]] | [[?Hne [?Hnr [?Hgo ->]]] | [?Hne [?Hgo H]]]]];
  [ | |
  | destruct H as
      [[?d [-> ->]]
      | [[-> [?Hpb ->]]
        | [[-> [?Hpb ->]]
          | [[-> [?attacker [?Hatt ->]]]
            | [[-> ->] | [?elapsed [-> ->]]]]]]] ].

(** ** Counters that never go back *)

(** X6.  No reduction lowers the high score: not a restart, not a level
    advance, not a tick. *)
Theorem hiScore_never_decreases (s : State) (e : Event) :
  match reduceState s e with
  | Ok s' => (hiScore s <= hiScore s')%Z
  | TypeError => e = AlienShoot
  end.
Proof.
  destruct (reduceState s e) as [s' | ] eqn:H;
    [ | exact (@reduceState_TypeError s e H)].
  reducer_cases H; try (simpl; lia).
  destruct (tick_scores s elapsed) as [_ Hh]. rewrite Hh. lia.
Qed.

Lemma currentHoleCount_nonneg (s : State) : (0 <= currentHoleCount s)%Z.
Proof. unfold currentHoleCount. lia. Qed.

(** X7.  No reduction lowers the object counter, and every reduction that
    lengthens the bullets or the UFOs, or that renews the formation (a
    level advance or a restart), raises it. *)
Theorem objCount_never_decreases (s : State) (e : Event) :
  match reduceState s e with
  | Ok s' =>
      (objCount s <= objCount s')%Z
      /\ ((List.length (bullets s) < List.length (bullets s'))%nat
          \/ (List.length (ufo s) < List.length (ufo s'))%nat
          \/ bodies (aliens s) = [] \/ e = Restart ->
          (objCount s < objCount s')%Z)
  | TypeError => e = AlienShoot
  end.
Proof.
  destruct (reduceState s e) as [s' | ] eqn:H;
    [ | exact (@reduceState_TypeError s e H)].
  reducer_cases H; cbn [objCount bullets ufo renewState withShipVelocity
                        withPlayerBullet withAlienBullet withUfo];
    unfold CONST.ALIEN.ROWS, CONST.ALIEN.COLS;
    try (split; [lia | intros _; lia]).
  - split; [lia | ]. intros [Hl | [Hl | [Hl | Hl]]]; try lia; congruence.
  - split; [lia | ]. intros [Hl | [Hl | [Hl | Hl]]]; try lia;
      try congruence; discriminate Hl.
  - split; [lia | ]. intros [Hl | [Hl | [Hl | Hl]]]; try lia;
      try congruence; discriminate Hl.
  - unfold tick.
    assert (Hb : forall b, In b (bullets (handleCollisions (tickMoved s elapsed)))
                 -> In b (bullets (tickMoved s elapsed)))
      by (intros b; apply handleCollisions_bullets_subset).
    assert (Ho : objCount (handleCollisions (tickMoved s elapsed))
                 = (objCount s + currentHoleCount (tickMoved s elapsed))%Z)
      by reflexivity.
    pose proof (currentHoleCount_nonneg (tickMoved s elapsed)) as Hc.
    rewrite Ho. split; [lia | ].
    intros [Hl | [Hl | [Hl | Hl]]]; try contradiction; try discriminate Hl;
      exfalso.
    + assert (Hlen : (List.length (bullets (handleCollisions (tickMoved s elapsed)))
                      <= List.length (bullets s))%nat).
      { unfold handleCollisions, cut, except. cbn [bullets].
        eapply Nat.le_trans; [apply filter_length_le | ].
        eapply Nat.le_trans; [apply filter_length_le | ].
        eapply Nat.le_trans; [apply filter_length_le | ].
        unfold tickMoved. cbn [bullets]. rewrite length_map.
        apply filter_length_le. }
      lia.
    + assert (Hlen : (List.length (ufo (handleCollisions (tickMoved s elapsed)))
                      <= List.length (ufo s))%nat).
      { unfold handleCollisions, remainingUfos. cbn [ufo].
        eapply Nat.le_trans; [apply filter_length_le | ].
        unfold tickMoved. cbn [ufo]. rewrite length_map.
        apply filter_length_le. }
      lia.
Qed.

(** ** What is kept from one state to the next *)

Lemma tick_exit (s : State) (elapsed : number) :
  exists l, exit (tick s elapsed) = exit s ++ l.
Proof.
  unfold tick. rewrite handleCollisions_exit.
  unfold tickMoved at 1. cbv zeta. cbn [exit].
  rewrite <- !app_assoc. eexists. reflexivity.
Qed.

(** X8.  Between two renewals [exit] only grows: a reduction that is
    neither a level advance nor a restart gives a state whose [exit]
    starts with the [exit] before.  The bodies that left on earlier ticks
    stay in it. *)
Theorem exit_accumulates (s s' : State) (e : Event) :
  reduceState s e = Ok s' ->
  bodies (aliens s) <> [] -> e <> Restart ->
  exists l, exit s' = exit s ++ l.
Proof.
  intros H Hal Hre. reducer_cases H; try contradiction;
    try (exists []; rewrite app_nil_r; reflexivity).
  apply tick_exit.
Qed.

Lemma exit_accumulates_witness :
  reduceState firstKill (clock firstKill)
  = Ok (tick firstKill (time firstKill + 1)%js)
  /\ bodies (aliens firstKill) <> [] /\ clock firstKill <> Restart
  /\ exists l, exit (tick firstKill (time firstKill + 1)%js)
               = exit firstKill ++ l.
Proof.
  assert (H1 : reduceState firstKill (clock firstKill)
               = Ok (tick firstKill (time firstKill + 1)%js))
    by (vm_compute; reflexivity).
  assert (H2 : bodies (aliens firstKill) <> [])
    by (vm_compute; discriminate).
  assert (H3 : clock firstKill <> Restart) by discriminate.
  split; [exact H1 | split; [exact H2 | split; [exact H3 | ]]].
  exact (@exit_accumulates _ _ _ H1 H2 H3).
Defined.

Lemma tick_score (s : State) (elapsed : number) :
  exists n : Z, (0 <= n)%Z /\ score (tick s elapsed) = (score s + 10 * n)%Z.
Proof.
  unfold tick, handleCollisions. cbn [score]. unfold newScore.
  assert (Hs : score (tickMoved s elapsed) = score s) by reflexivity.
  rewrite Hs. unfold CONST.ALIEN.SCORING, CONST.UFO.POINTS.
  eexists (Z.of_nat _ + 5 * Z.of_nat _)%Z. split; [lia | ].
  rewrite Z.mul_add_distr_l, Z.mul_assoc. rewrite Z.add_assoc. reflexivity.
Qed.

(** X9.  The score of every reachable state is a multiple of ten that is
    not negative: points come ten for an alien and fifty for a UFO, and a
    restart goes back to zero. *)
Theorem score_is_a_multiple_of_ten (hi : Z) (seed : Q) (s : State) :
  reachable hi seed s ->
  exists n : Z, (0 <= n)%Z /\ score s = (10 * n)%Z.
Proof.
  induction 1 as [ | s s' e Hs [n [Hn IH]] Hr].
  - exists 0%Z. split; [lia | reflexivity].
  - reducer_cases Hr; cbn [score renewState withShipVelocity withPlayerBullet
                           withAlienBullet withUfo];
      try (exists n; split; [exact Hn | exact IH]).
    + exists 0%Z. split; [lia | reflexivity].
    + destruct (tick_score s elapsed) as [k [Hk E]].
      exists (n + k)%Z. split; [lia | ]. rewrite E, IH. lia.
Qed.

Lemma score_is_a_multiple_of_ten_witness :
  reachable 0 (1 # 2) firstKill
  /\ exists n : Z, (0 <= n)%Z /\ score firstKill = (10 * n)%Z.
Proof.
  split; [exact firstKill_reachable | ].
  exact (@score_is_a_multiple_of_ten _ _ _ firstKill_reachable).
Defined.

(** ** One player bullet at a time *)

Lemma ViewType_eqb_sym (v w : ViewType) : ViewType_eqb v w = ViewType_eqb w v.
Proof. destruct v, w; reflexivity. Qed.

Lemma filter_filter_length (A : Type) (p q : A -> bool) (l : list A) :
  (List.length (filter p (filter q l)) <= List.length (filter p l))%nat.
Proof.
  induction l as [ | a l IH]; simpl; [lia | ].
  destruct (q a); simpl; destruct (p a); simpl; lia.
Qed.

Lemma filter_isViewType_moveBody (k : ViewType) (l : list Body) :
  filter (isViewType k) (map moveBody l)
  = map moveBody (filter (isViewType k) l).
Proof.
  induction l as [ | a l IH]; [reflexivity | ]. cbn [map filter].
  replace (isViewType k (moveBody a)) with (isViewType k a) by reflexivity.
  destruct (isViewType k a); cbn [map]; rewrite IH; reflexivity.
Qed.

Lemma tick_playerBullets (s : State) (elapsed : number) :
  (List.length (playerBullets (tick s elapsed))
   <= List.length (playerBullets s))%nat.
Proof.
  unfold playerBullets, tick, handleCollisions, cut, except. cbn [bullets].
  eapply Nat.le_trans; [apply filter_filter_length | ].
  eapply Nat.le_trans; [apply filter_filter_length | ].
  eapply Nat.le_trans; [apply filter_filter_length | ].
  unfold tickMoved. cbn [bullets].
  rewrite filter_isViewType_moveBody, length_map.
  apply filter_filter_length.
Qed.

Lemma no_playerBullet (s : State) :
  playerBulletInFlight s = false -> playerBullets s = [].
Proof.
  unfold playerBulletInFlight, playerBullets. rewrite existsb_false.
  intros H. induction (bullets s) as [ | a l IH]; [reflexivity | ].
  cbn [filter].
  assert (E : isViewType bulletPlayer a = false).
  { unfold isViewType. rewrite ViewType_eqb_sym. apply H. left. reflexivity. }
  rewrite E. apply IH. intros y Hy. apply H. right. exact Hy.
Qed.

(** X10.  In every reachable state at most one player bullet is in flight:
    the [Shoot] branch is the only one that makes a player bullet, and it
    makes none while one is there. *)
Theorem at_most_one_player_bullet (hi : Z) (seed : Q) (s : State) :
  reachable hi seed s -> (List.length (playerBullets s) <= 1)%nat.
Proof.
  induction 1 as [ | s s' e Hs IH Hr]; [simpl; lia | ].
  reducer_cases Hr; try exact IH; try (simpl; lia).
  - unfold playerBullets, withPlayerBullet. cbn [bullets].
    rewrite filter_app. fold (playerBullets s).
    rewrite (no_playerBullet _ Hpb). simpl. lia.
  - unfold playerBullets, withAlienBullet. cbn [bullets].
    rewrite filter_app. fold (playerBullets s).
    simpl. rewrite length_app. simpl. lia.
  - eapply Nat.le_trans; [apply tick_playerBullets | exact IH].
Qed.

Lemma at_most_one_player_bullet_witness :
  reachable 0 (1 # 2) shotFired
  /\ (List.length (playerBullets shotFired) <= 1)%nat.
Proof.
  split; [exact shotFired_reachable | ].
  exact (@at_most_one_player_bullet _ _ _ shotFired_reachable).
Defined.

(** ** The ship *)

Lemma createShip_onItsLine : shipOnItsLine createShip.
Proof. repeat split. Qed.

Lemma moveBody_onItsLine (o : Body) :
  shipOnItsLine o -> shipOnItsLine (moveBody o).
Proof.
  intros [H1 [H2 [H3 [H4 [H5 H6]]]]].
  unfold shipOnItsLine, moveBody. cbn [id viewType dims pos vel acc].
  unfold Vec.add. cbn [Vec.x Vec.y]. rewrite H4, H5, H6.
  repeat split; assumption.
Qed.

Lemma stopBody_onItsLine (o : Body) :
  shipOnItsLine o -> shipOnItsLine (stopBody o).
Proof.
  intros [H1 [H2 [H3 [H4 [H5 H6]]]]].
  unfold shipOnItsLine, stopBody. cbn [id viewType dims pos vel acc].
  unfold Vec.sub, Vec.add, Vec.scale. cbn [Vec.x Vec.y]. rewrite H4, H5.
  repeat split; assumption.
Qed.

Lemma reachable_shipOnItsLine (hi : Z) (seed : Q) (s : State) :
  reachable hi seed s -> shipOnItsLine (ship s).
Proof.
  induction 1 as [ | s s' e Hs IH Hr]; [exact createShip_onItsLine | ].
  reducer_cases Hr; try exact IH; try exact createShip_onItsLine.
  - destruct IH as [H1 [H2 [H3 [H4 [H5 H6]]]]].
    unfold shipOnItsLine, withShipVelocity.
    cbn [ship id viewType dims pos vel acc Vec.y]. repeat split; assumption.
  - unfold tick, handleCollisions, tickMoved. cbn [ship].
    destruct (inBounds (ship s));
      [apply moveBody_onItsLine | apply stopBody_onItsLine]; exact IH.
Qed.

(** X11.  In every reachable state the ship is on its line: its id is
    "ship", its size is the ship's, its top is at y = 540, it has no
    vertical speed and no acceleration.  The reducer only moves it
    sideways. *)
Theorem ship_stays_on_its_line (hi : Z) (seed : Q) (s : State) :
  reachable hi seed s -> shipOnItsLine (ship s).
Proof. apply reachable_shipOnItsLine. Qed.

Lemma ship_stays_on_its_line_witness :
  reachable 0 (1 # 2) firstKill /\ shipOnItsLine (ship firstKill).
Proof.
  split; [exact firstKill_reachable | ].
  exact (@ship_stays_on_its_line _ _ _ firstKill_reachable).
Defined.

(** ** Game over and restart *)

(** X12.  A game that is over is frozen: while the formation is not empty,
    every event but [Restart] gives the state back as it is, and an
    [AlienShoot] event cannot throw. *)
Theorem game_over_freezes (s : State) (e : Event) :
  bodies (aliens s) <> [] -> gameOver s = true -> e <> Restart ->
  reduceState s e = Ok s.
Proof.
  intros Hne Hgo Hre. unfold reduceState.
  destruct (List.length (bodies (aliens s)) =? 0)%nat eqn:E.
  { apply length_zero_iff in E. contradiction. }
  destruct e; try contradiction; rewrite Hgo; reflexivity.
Qed.

Lemma gameLost_reachable : reachable 0 (1 # 2) gameLost.
Proof.
  apply orElse_reachable.
  - intros s H. refine (reachable_reduce _ _ H).
    apply orElse_reachable; [ | exact newGame_reachable].
    intros s0 H0. repeat reach_by.
  - apply orElse_reachable; [ | exact newGame_reachable].
    intros s0 H0. repeat reach_by.
Qed.

Lemma gameLost_aliens : bodies (aliens gameLost) <> [].
Proof. vm_compute. discriminate. Qed.

Lemma gameLost_over : gameOver gameLost = true.
Proof. vm_compute. reflexivity. Qed.

Lemma game_over_freezes_witness :
  bodies (aliens gameLost) <> [] /\ gameOver gameLost = true
  /\ AlienShoot <> Restart
  /\ reduceState gameLost AlienShoot = Ok gameLost.
Proof.
  assert (H3 : AlienShoot <> Restart) by discriminate.
  split; [exact gameLost_aliens | split; [exact gameLost_over | ]].
  split; [exact H3 | ].
  exact (@game_over_freezes _ _ gameLost_aliens gameLost_over H3).
Defined.

(** X13.  [Restart] from any state with aliens, over or not: the score is
    0, the game is on, the ship is new, no bullet, hole or UFO is left,
    the formation is the one of the initial state (24 aliens, the initial
    acceleration, rigid), the high score and the shields are kept, the
    object counter grows by 24 and the generator steps once. *)
Theorem restart_renews (s : State) :
  bodies (aliens s) <> [] ->
  exists s',
    reduceState s Restart = Ok s'
    /\ score s' = 0%Z /\ gameOver s' = false /\ time s' = CONST.START_TIME
    /\ ship s' = createShip
    /\ bullets s' = [] /\ holes s' = [] /\ ufo s' = []
    /\ aliens s' = createAliens CONST.ALIEN.INITIAL.ACC
    /\ List.length (bodies (aliens s')) = 24%nat
    /\ rigid (aliens s')
    /\ hiScore s' = hiScore s /\ shields s' = shields s
    /\ objCount s' = (objCount s + 24)%Z
    /\ rng s' = RNG.next (rng s).
Proof.
  intros Hne. exists (renewState s true).
  split; [apply reduceState_restart; exact Hne | ].
  repeat (split; [reflexivity | ]).
  split; [apply createAliens_rigid_iff; reflexivity | ].
  repeat split.
Qed.

Lemma restart_renews_witness :
  bodies (aliens gameLost) <> []
  /\ exists s',
       reduceState gameLost Restart = Ok s'
       /\ score s' = 0%Z /\ gameOver s' = false /\ time s' = CONST.START_TIME
       /\ ship s' = createShip
       /\ bullets s' = [] /\ holes s' = [] /\ ufo s' = []
       /\ aliens s' = createAliens CONST.ALIEN.INITIAL.ACC
       /\ List.length (bodies (aliens s')) = 24%nat
       /\ rigid (aliens s')
       /\ hiScore s' = hiScore gameLost /\ shields s' = shields gameLost
       /\ objCount s' = (objCount gameLost + 24)%Z
       /\ rng s' = RNG.next (rng gameLost).
Proof.
  split; [exact gameLost_aliens | ].
  exact (@restart_renews _ gameLost_aliens).
Defined.

(** ** What a tick drops and what it keeps *)

Lemma tick_bullets_from (s : State) (elapsed : number) (b' : Body) :
  In b' (bullets (tick s elapsed)) ->
  exists b, In b (bullets s) /\ inBounds b = true /\ b' = moveBody b.
Proof.
  unfold tick. intros H. apply handleCollisions_bullets_subset in H.
  unfold tickMoved in H. cbn [bullets] in H. apply in_map_iff in H.
  destruct H as [b [E Hb]]. apply filter_In in Hb.
  exists b. split; [tauto | split; [tauto | congruence]].
Qed.

(** X14.  A tick drops the bullets that are not in the bounds of the
    canvas: each is put in [exit] as it is, and every bullet of the state
    after the tick is a bullet of the state before that was in bounds,
    moved by one step. *)
Theorem tick_drops_bullets_out_of_bounds (s : State) (elapsed : number) :
  (forall b, In b (bullets s) -> inBounds b = false ->
             In (ExitBody b) (exit (tick s elapsed)))
  /\ (forall b', In b' (bullets (tick s elapsed)) ->
                 exists b, In b (bullets s) /\ inBounds b = true
                           /\ b' = moveBody b).
Proof.
  split; [ | intros b'; apply tick_bullets_from].
  intros b Hb Hout. unfold tick. rewrite handleCollisions_exit.
  unfold tickMoved at 1. cbv zeta. cbn [exit].
  rewrite !in_app_iff. left. right. left.
  apply in_map_ExitBody. apply filter_In. split; [exact Hb | ].
  unfold not_. rewrite Hout. reflexivity.
Qed.

(** X15.  A tick keeps a UFO only while its left edge is left of the
    canvas size plus its width: every UFO of the state after the tick is a
    UFO of the state before that passed this test, moved by one step; a
    UFO that failed it is put in [exit] unless a kept UFO has its id. *)
Theorem tick_drops_ufos_that_left (s : State) (elapsed : number) :
  (forall u', In u' (ufo (tick s elapsed)) ->
              exists u, In u (ufo s) /\ exitLeft u = true /\ u' = moveBody u)
  /\ (forall u, In u (ufo s) -> exitLeft u = false ->
                (forall v, In v (ufo s) -> exitLeft v = true ->
                           sameId u v = false) ->
                In (ExitBody u) (exit (tick s elapsed))).
Proof.
  split.
  - intros u' H. unfold tick, handleCollisions, remainingUfos in H.
    cbn [ufo] in H. apply filter_In in H. destruct H as [H _].
    unfold tickMoved in H. cbn [ufo] in H. apply in_map_iff in H.
    destruct H as [u [E Hu]]. apply filter_In in Hu.
    exists u. split; [tauto | split; [tauto | congruence]].
  - intros u Hu Hout Hid. unfold tick. rewrite handleCollisions_exit.
    unfold tickMoved at 1. cbv zeta. cbn [exit].
    rewrite !in_app_iff. left. right. right.
    apply in_map_ExitBody. apply except_In. split; [exact Hu | ].
    intros v Hv. apply filter_In in Hv. apply Hid; tauto.
Qed.

(** X16.  An alien out of the bounds of the canvas ends the game at the
    next tick: in a game that is on, the [Tick] event gives a state that
    is over. *)
Theorem invasion_ends_the_game (s : State) (elapsed : number) (a : Body) :
  In a (bodies (aliens s)) -> inBounds a = false -> gameOver s = false ->
  reduceState s (Tick elapsed) = Ok (tick s elapsed)
  /\ gameOver (tick s elapsed) = true.
Proof.
  intros Ha Hout Hgo. split.
  - unfold reduceState.
    destruct (List.length (bodies (aliens s)) =? 0)%nat eqn:E.
    { apply length_zero_iff in E. rewrite E in Ha. destruct Ha. }
    rewrite Hgo. reflexivity.
  - unfold tick, handleCollisions. cbn [gameOver].
    unfold tickMoved at 1. cbv zeta. cbn [gameOver].
    assert (Hin : In a (filter (not_ inBounds) (bodies (aliens s)))).
    { apply filter_In. split; [exact Ha | ]. unfold not_. rewrite Hout.
      reflexivity. }
    apply length_pos_of_In in Hin.
    destruct (List.length (filter (not_ inBounds) (bodies (aliens s))));
      [lia | reflexivity].
Qed.

Lemma invasion_ends_the_game_witness :
  In (nth 16 (bodies (aliens invaded)) createShip) (bodies (aliens invaded))
  /\ inBounds (nth 16 (bodies (aliens invaded)) createShip) = false
  /\ gameOver invaded = false
  /\ reduceState invaded (Tick 3951) = Ok (tick invaded 3951)
  /\ gameOver (tick invaded 3951) = true.
Proof.
  assert (H1 : In (nth 16 (bodies (aliens invaded)) createShip)
                 (bodies (aliens invaded))) by by_nth.
  assert (H2 : inBounds (nth 16 (bodies (aliens invaded)) createShip) = false)
    by (vm_compute; reflexivity).
  assert (H3 : gameOver invaded = false) by (vm_compute; reflexivity).
  split; [exact H1 | split; [exact H2 | split; [exact H3 | ]]].
  exact (@invasion_ends_the_game _ 3951 _ H1 H2 H3).
Defined.

(** ** The bounds of the canvas *)

(** X17.  For a body whose sides have a length, [inBounds] is true exactly
    when the rectangle of the body is strictly inside the canvas: its left
    and top edges are beyond 0 and its right and bottom edges are short of
    600.  A body that touches an edge of the canvas is out of bounds. *)
Theorem inBounds_iff_inside_canvas (o : Body) :
  properDims o ->
  (inBounds o = true
   <-> (0 < Vec.x (pos o))%Q
       /\ (Vec.x (pos o) + width (dims o) < 600)%Q
       /\ (0 < Vec.y (pos o))%Q
       /\ (Vec.y (pos o) + height (dims o) < 600)%Q).
Proof.
  intros [Hw Hh]. unfold inBounds. cbv zeta.
  rewrite !andb_true_iff, !ltb_lt.
  pose proof (add_eq (Vec.x (pos o)) (width (dims o))) as Ex.
  pose proof (add_eq (Vec.y (pos o)) (height (dims o))) as Ey.
  rewrite Ex, Ey. unfold CONST.CANVAS_SIZE.
  generalize dependent (Vec.x (pos o)). generalize dependent (Vec.y (pos o)).
  generalize dependent (width (dims o)).
  generalize dependent (height (dims o)).
  intros h Hh w Hw y _ x _. split; intros H; repeat split; lra.
Qed.

Lemma inBounds_iff_inside_canvas_witness :
  properDims createShip
  /\ (inBounds createShip = true
      <-> (0 < Vec.x (pos createShip))%Q
          /\ (Vec.x (pos createShip) + width (dims createShip) < 600)%Q
          /\ (0 < Vec.y (pos createShip))%Q
          /\ (Vec.y (pos createShip) + height (dims createShip) < 600)%Q).
Proof.
  assert (H : properDims createShip) by (split; unfold Qle; simpl; lia).
  split; [exact H | ].
  exact (@inBounds_iff_inside_canvas createShip H).
Defined.

(** ** The formation on the move *)

Lemma Forall2_map_self (A B : Type) (R : A -> B -> Prop) (f : A -> B)
    (l : list A) :
  Forall (fun x => R x (f x)) l -> Forall2 R l (map f l).
Proof.
  induction 1 as [ | x l Hx Hl IH]; simpl; constructor; assumption.
Qed.

(** X18.  [moveAliens] moves a rigid formation as one block: there is one
    displacement by which the anchor and every alien are moved, each alien
    keeping its id, its view type and its size, and the moved formation is
    rigid again, with the acceleration magnitude it had. *)
Theorem moveAliens_moves_the_block (a : AliensInfo) :
  rigid a ->
  exists dx dy : Q,
    translatedBy dx dy (current (movementPos a))
      (current (movementPos (moveAliens a)))
    /\ Forall2 (translatedBy dx dy) (bodies a) (bodies (moveAliens a))
    /\ rigid (moveAliens a)
    /\ accMagnitude (moveAliens a) = accMagnitude a.
Proof.
  intros Hr. pose proof (moveAliens_rigid Hr) as Hr'.
  unfold rigid in Hr. revert Hr'. unfold moveAliens. cbv zeta.
  match goal with
  | |- context [if ?c then map shiftAlienDown _ else _] => destruct c
  end; cbn [bodies movementPos current accMagnitude]; intros Hr'.
  - match goal with
    | |- context [shiftAlienX ?sh] => exists sh
    end.
    exists CONST.ALIEN.MOVE_DIST.y.
    split; [ | split; [ | split; [exact Hr' | reflexivity]]].
    + unfold translatedBy, shiftAlienDown, shiftAlienX, Vec.add.
      cbn [id viewType dims pos Vec.x Vec.y].
      repeat split; rewrite !add_eq; ring.
    + rewrite map_map. apply Forall2_map_self.
      eapply Forall_impl; [ | exact Hr]. intros b _.
      unfold translatedBy, shiftAlienDown, shiftAlienX, Vec.add.
      cbn [id viewType dims pos Vec.x Vec.y].
      repeat split; rewrite !add_eq; ring.
  - exists (Vec.x (vel (current (movementPos a)))).
    exists (Vec.y (vel (current (movementPos a)))).
    split; [ | split; [ | split; [exact Hr' | reflexivity]]].
    + unfold translatedBy, moveBody, Vec.add.
      cbn [id viewType dims pos Vec.x Vec.y].
      repeat split; apply add_eq.
    + apply Forall2_map_self.
      eapply Forall_impl; [ | exact Hr]. intros b [Hv _].
      unfold translatedBy, moveBody, Vec.add.
      cbn [id viewType dims pos Vec.x Vec.y]. rewrite Hv.
      repeat split; apply add_eq.
Qed.

Lemma moveAliens_moves_the_block_witness :
  rigid (aliens newGame)
  /\ exists dx dy : Q,
       translatedBy dx dy (current (movementPos (aliens newGame)))
         (current (movementPos (moveAliens (aliens newGame))))
       /\ Forall2 (translatedBy dx dy) (bodies (aliens newGame))
            (bodies (moveAliens (aliens newGame)))
       /\ rigid (moveAliens (aliens newGame))
       /\ accMagnitude (moveAliens (aliens newGame))
          = accMagnitude (aliens newGame).
Proof.
  assert (H : rigid (aliens newGame))
    by (apply createAliens_rigid_iff; reflexivity).
  split; [exact H | ].
  exact (@moveAliens_moves_the_block _ H).
Defined.

Lemma moveAliens_ids (a : AliensInfo) (b' : Body) :
  In b' (bodies (moveAliens a)) ->
  exists b, In b (bodies a) /\ id b' = id b /\ viewType b' = viewType b
            /\ dims b' = dims b.
Proof.
  unfold moveAliens. cbv zeta.
  match goal with
  | |- context [if ?c then map shiftAlienDown _ else _] => destruct c
  end; cbn [bodies]; intros H.
  - rewrite map_map in H. apply in_map_iff in H. destruct H as [b [<- Hb]].
    exists b. repeat split. exact Hb.
  - apply in_map_iff in H. destruct H as [b [<- Hb]].
    exists b. repeat split. exact Hb.
Qed.

(** X19.  A tick makes no alien: every alien of the state after the tick
    has the id, the view type and the size of an alien of the state
    before; the aliens are no more than before, and the acceleration
    magnitude of the formation is the same. *)
Theorem tick_makes_no_alien (s : State) (elapsed : number) :
  (forall a', In a' (bodies (aliens (tick s elapsed))) ->
              exists a, In a (bodies (aliens s)) /\ id a' = id a
                        /\ viewType a' = viewType a /\ dims a' = dims a)
  /\ (List.length (bodies (aliens (tick s elapsed)))
      <= List.length (bodies (aliens s)))%nat
  /\ accMagnitude (aliens (tick s elapsed)) = accMagnitude (aliens s).
Proof.
  unfold tick, handleCollisions. cbn [aliens bodies accMagnitude].
  unfold remainingAliens. unfold tickMoved at 2 4 5. cbv zeta. cbn [aliens].
  split; [ | split].
  - intros a' H. apply filter_In in H. destruct H as [H _].
    apply moveAliens_ids. exact H.
  - eapply Nat.le_trans; [apply filter_length_le | ].
    unfold moveAliens. cbv zeta.
    match goal with
    | |- context [if ?c then map shiftAlienDown _ else _] => destruct c
    end; cbn [bodies]; rewrite ?length_map; lia.
  - reflexivity.
Qed.

(** ** The generator over many steps *)







Lemma RNG_float_of_int (r : RNG.t) :
  (0 <= RNG.int r < RNG.m)%Q ->
  (0 <= RNG.float r)%Q /\ (RNG.float r * 2147483647 < 2147483648)%Q.
Proof.
  intros [Hlo Hhi]. unfold RNG.float. rewrite div_eq.
  assert (Hm : (RNG.m - 1)%js = 2147483647%Q) by reflexivity.
  rewrite Hm. unfold RNG.m in Hhi.
  generalize dependent (RNG.int r). intros i Hlo Hhi.
  assert (Hpos : (0 < 2147483647)%Q) by reflexivity.
  split.
  - apply Qle_shift_div_l; [exact Hpos | ]. rewrite Qmult_0_l. exact Hlo.
  - assert (E : (i / 2147483647 * 2147483647 == i)%Q).
    { rewrite Qmult_comm. apply Qmult_div_r. discriminate. }
    rewrite E. exact Hhi.
Qed.

(** X21.  From a state that is not negative, whole or not, every later
    state is in the half-open interval from 0 to [m], and every number
    that [float] gives, now or later, is at least 0 and below
    [m / (m - 1)]. *)
Theorem RNG_stays_in_range (r : RNG.t) (n : nat) :
  (0 <= RNG.state r)%Q ->
  (0 <= RNG.state (Nat.iter n RNG.next r))%Q
  /\ ((0 < n)%nat -> (RNG.state (Nat.iter n RNG.next r) < RNG.m)%Q)
  /\ (0 <= RNG.float (Nat.iter n RNG.next r))%Q
  /\ (RNG.float (Nat.iter n RNG.next r) * 2147483647 < 2147483648)%Q.
Proof.
  intros Hr.
  assert (H0 : (0 <= RNG.state (Nat.iter n RNG.next r))%Q).
  { induction n as [ | n IH]; [exact Hr | ].
    simpl. apply (RNG_int_range _ IH). }
  split; [exact H0 | ].
  split.
  - destruct n as [ | n]; [lia | ]. intros _. simpl.
    apply RNG_int_range.
    clear H0. induction n as [ | n IH]; [exact Hr | ].
    simpl. apply (RNG_int_range _ IH).
  - apply RNG_float_of_int. apply RNG_int_range. exact H0.
Qed.

Lemma RNG_stays_in_range_witness :
  (0 <= RNG.state (RNG.new stateAboveOne))%Q
  /\ (0 <= RNG.state (Nat.iter 2 RNG.next (RNG.new stateAboveOne)))%Q
  /\ ((0 < 2)%nat ->
      (RNG.state (Nat.iter 2 RNG.next (RNG.new stateAboveOne)) < RNG.m)%Q)
  /\ (0 <= RNG.float (Nat.iter 2 RNG.next (RNG.new stateAboveOne)))%Q
  /\ (RNG.float (Nat.iter 2 RNG.next (RNG.new stateAboveOne)) * 2147483647
      < 2147483648)%Q.
Proof.
  assert (H : (0 <= RNG.state (RNG.new stateAboveOne))%Q)
    by (unfold Qle; simpl; lia).
  split; [exact H | ].
  exact (@RNG_stays_in_range (RNG.new stateAboveOne) 2 H).
Defined.

(** ** Where the reducer draws from the generator *)

(** X22.  The reducer steps the generator exactly when it renews the state
    (a level advance or a restart) or serves an [AlienShoot] event in a
    game that is on, and then by one call of [next]; every other reduction
    leaves the generator as it is. *)
Theorem rng_steps_once_or_not (s : State) (e : Event) :
  match reduceState s e with
  | Ok s' =>
      if (List.length (bodies (aliens s)) =? 0)%nat then
        rng s' = RNG.next (rng s)
      else match e with
      | Restart => rng s' = RNG.next (rng s)
      | AlienShoot =>
          rng s' = if gameOver s then rng s else RNG.next (rng s)
      | _ => rng s' = rng s
      end
  | TypeError => e = AlienShoot
  end.
Proof.
  destruct (reduceState s e) as [s' | ] eqn:H;
    [ | exact (@reduceState_TypeError s e H)].
  reducer_cases H; [rewrite Hemp; reflexivity | | | | | | | | ];
    (destruct (_ =? _)%nat eqn:E;
     [apply length_zero_iff in E; contradiction | ]);
    try reflexivity.
  - destruct e; try reflexivity; try contradiction.
    rewrite Hgo. reflexivity.
  - rewrite Hgo. reflexivity.
Qed.

(** ** The ids of the bodies *)

Lemma to_int_proper (n : Z) :
  Z.to_int n <> Decimal.Pos Decimal.Nil
  /\ Z.to_int n <> Decimal.Neg Decimal.Nil.
Proof.
  destruct n as [ | p | p]; simpl; split; try discriminate;
    intros H; injection H as H;
    exact (DecimalPos.Unsigned.to_uint_nonnil p H).
Qed.

(** The decimal rendering tells the integers apart. *)
Lemma toString_inj (n n' : Z) : Num.toString n = Num.toString n' -> n = n'.
Proof.
  unfold Num.toString. intros H.
  apply (f_equal NilZero.int_of_string) in H.
  destruct (to_int_proper n) as [H1 H2].
  destruct (to_int_proper n') as [H1' H2'].
  rewrite !NilZero.isi in H by assumption.
  injection H as H. apply DecimalZ.to_int_inj. exact H.
Qed.

Lemma name_number_inj (v v' : ViewType) (n n' : Z) :
  (ViewType_name v ++ Num.toString n)%string
  = (ViewType_name v' ++ Num.toString n')%string ->
  v = v' /\ n = n'.
Proof.
  destruct v, v'; simpl; intros H; try discriminate H;
    try (injection H as H; split; [reflexivity | apply toString_inj; exact H]);
    exfalso; injection H; intros; discriminate.
Qed.

(** X23.  The id of a body that is given a number tells its view type and
    its number: two such bodies have the same id exactly when they have
    the same view type and the same number, whatever else they are made
    of. *)
Theorem numbered_ids_tell_type_and_number (v v' : ViewType) (n n' : Z)
    (t t' : number) (d d' : Dims) (p p' ve ve' ac ac' : Vec.t) :
  sameId (createBody v (Some n) t d p ve ac)
         (createBody v' (Some n') t' d' p' ve' ac') = true
  <-> v = v' /\ n = n'.
Proof.
  unfold sameId, createBody. cbn [id]. rewrite String.eqb_eq. split.
  - apply name_number_inj.
  - intros [-> ->]. reflexivity.
Qed.

(** ** Distinct ids in flight *)

Lemma numberedBelow_mono (n n' : Z) (b : Body) :
  (n <= n')%Z -> numberedBelow n b -> numberedBelow n' b.
Proof.
  intros Hn [k [Hk E]]. exists k. split; [lia | exact E].
Qed.

Lemma numberedBelow_moveBody (n : Z) (b : Body) :
  numberedBelow n b -> numberedBelow n (moveBody b).
Proof. intros H. exact H. Qed.

(** A body numbered [m] has the id of no body numbered below [m]. *)
Lemma fresh_id (n m : Z) (l : list Body) (x : Body) :
  Forall (numberedBelow n) l -> (n <= m)%Z ->
  id x = (ViewType_name (viewType x) ++ Num.toString m)%string ->
  ~ In (id x) (map id l).
Proof.
  intros Hl Hm Hx Hin. apply in_map_iff in Hin.
  destruct Hin as [b [E Hb]]. rewrite Forall_forall in Hl.
  destruct (Hl b Hb) as [k [Hk Eb]]. rewrite Hx, Eb in E.
  apply name_number_inj in E. lia.
Qed.

Lemma NoDup_app_iff (A : Type) (l1 l2 : list A) :
  NoDup (l1 ++ l2)
  <-> NoDup l1 /\ NoDup l2 /\ forall a, In a l1 -> ~ In a l2.
Proof.
  split.
  - intros H. split; [exact (NoDup_app_remove_r _ _ H) | ].
    split; [exact (NoDup_app_remove_l _ _ H) | ].
    induction l1 as [ | x l1 IH]; [intros a [] | ].
    simpl in H. apply NoDup_cons_iff in H. destruct H as [Hx H].
    intros a [<- | Ha].
    + intros Hin. apply Hx. apply in_or_app. right. exact Hin.
    + exact (IH H a Ha).
  - intros [H1 [H2 H]]. apply NoDup_app; assumption.
Qed.

(** Bodies that are filtered out take their ids with them: what is kept has
    ids of the list, and they stay distinct. *)
Lemma kept_ids_from (keep : Body -> bool) (bs : list Body) (i : string) :
  In i (map id (filter keep bs)) -> In i (map id bs).
Proof.
  rewrite !in_map_iff. intros [b [E Hb]]. apply filter_In in Hb.
  exists b. tauto.
Qed.

Lemma kept_ids_distinct (keep : Body -> bool) (bs : list Body) :
  NoDup (map id bs) -> NoDup (map id (filter keep bs)).
Proof.
  induction bs as [ | b bs IH]; cbn [filter map]; [intros H; exact H | ].
  intros H. apply NoDup_cons_iff in H. destruct H as [Hb H].
  destruct (keep b); cbn [map]; [ | exact (IH H)].
  apply NoDup_cons; [ | exact (IH H)].
  intros Hin. apply Hb. exact (@kept_ids_from keep bs (id b) Hin).
Qed.

Lemma map_id_moveBody (l : list Body) : map id (map moveBody l) = map id l.
Proof. rewrite map_map. reflexivity. Qed.

(** Thinning the first and the last of three lists keeps the ids
    distinct. *)
Lemma NoDup_ids_thin (X Y Z X' Z' : list Body) :
  NoDup (map id (X ++ Y ++ Z)) ->
  NoDup (map id X') -> (forall a, In a (map id X') -> In a (map id X)) ->
  NoDup (map id Z') -> (forall a, In a (map id Z') -> In a (map id Z)) ->
  NoDup (map id (X' ++ Y ++ Z')).
Proof.
  rewrite !map_app, !NoDup_app_iff.
  intros [HX [[HY [HZ HYZ]] HXYZ]] HX' HsubX HZ' HsubZ.
  split; [exact HX' | ]. split.
  - split; [exact HY | ]. split; [exact HZ' | ].
    intros a Ha Hin. exact (HYZ a Ha (HsubZ a Hin)).
  - intros a Ha Hin. apply (HXYZ a (HsubX a Ha)).
    apply in_app_iff. apply in_app_iff in Hin.
    destruct Hin as [Hin | Hin]; [left; exact Hin | right; exact (HsubZ a Hin)].
Qed.

(** Lengthening the middle one by bodies whose ids are new keeps the ids
    distinct. *)
Lemma NoDup_ids_extend (X Y Z N : list Body) :
  NoDup (map id (X ++ Y ++ Z)) -> NoDup (map id N) ->
  (forall a, In a (map id N) -> ~ In a (map id (X ++ Y ++ Z))) ->
  NoDup (map id (X ++ (Y ++ N) ++ Z)).
Proof.
  rewrite !map_app, !NoDup_app_iff.
  intros [HX [[HY [HZ HYZ]] HXYZ]] HN Hnew.
  assert (HnX : forall a, In a (map id N) -> ~ In a (map id X)).
  { intros a Ha Hin. apply (Hnew a Ha). rewrite !in_app_iff. tauto. }
  assert (HnY : forall a, In a (map id N) -> ~ In a (map id Y)).
  { intros a Ha Hin. apply (Hnew a Ha). rewrite !in_app_iff. tauto. }
  assert (HnZ : forall a, In a (map id N) -> ~ In a (map id Z)).
  { intros a Ha Hin. apply (Hnew a Ha). rewrite !in_app_iff. tauto. }
  split; [exact HX | ]. split.
  - split.
    + split; [exact HY | ]. split; [exact HN | ].
      intros a Ha Hin. exact (HnY a Hin Ha).
    + split; [exact HZ | ].
      intros a Ha Hin. apply in_app_iff in Ha. destruct Ha as [Ha | Ha].
      * exact (HYZ a Ha Hin).
      * exact (HnZ a Ha Hin).
  - intros a Ha Hin. rewrite !in_app_iff in Hin.
    destruct Hin as [[Hin | Hin] | Hin].
    + apply (HXYZ a Ha). rewrite in_app_iff. tauto.
    + exact (HnX a Hin Ha).
    + apply (HXYZ a Ha). rewrite in_app_iff. tauto.
Qed.

(** Putting one body with a new id in a list keeps the ids distinct. *)
Lemma NoDup_ids_insert (l1 l2 : list Body) (x : Body) :
  NoDup (map id (l1 ++ l2)) -> ~ In (id x) (map id (l1 ++ l2)) ->
  NoDup (map id (l1 ++ x :: l2)).
Proof.
  rewrite !map_app. cbn [map]. intros H Hx.
  apply (NoDup_Add (Add_app (id x) (map id l1) (map id l2))).
  split; assumption.
Qed.

(** The ids that a map with index gives, when the id only depends on the
    index. *)
Lemma mapi_from_ids (f : Body -> Z -> Body) (g : Z -> string) (l : list Body) :
  (forall b i, id (f b i) = g i) ->
  forall k a, In a (map id (mapi_from k f l)) ->
  exists j : Z, (k <= j < k + Z.of_nat (List.length l))%Z /\ a = g j.
Proof.
  intros Hf. induction l as [ | b l IH]; intros k a H; [destruct H | ].
  cbn [mapi_from map] in H. destruct H as [<- | H].
  - exists k. cbn [List.length]. split; [lia | apply Hf].
  - destruct (IH (k + 1)%Z a H) as [j [Hj E]].
    exists j. cbn [List.length]. split; [lia | exact E].
Qed.

Lemma mapi_from_viewType (f : Body -> Z -> Body) (v : ViewType)
    (l : list Body) :
  (forall b i, viewType (f b i) = v) ->
  forall k h, In h (mapi_from k f l) -> viewType h = v.
Proof.
  intros Hf. induction l as [ | b l IH]; intros k h H; [destruct H | ].
  cbn [mapi_from] in H. destruct H as [<- | H]; [apply Hf | ].
  exact (IH (k + 1)%Z h H).
Qed.

Lemma mapi_from_NoDup (f : Body -> Z -> Body) (g : Z -> string) (l : list Body) :
  (forall b i, id (f b i) = g i) ->
  (forall i j, g i = g j -> i = j) ->
  forall k, NoDup (map id (mapi_from k f l)).
Proof.
  intros Hf Hg. induction l as [ | b l IH]; intros k; [constructor | ].
  cbn [mapi_from map]. apply NoDup_cons; [ | apply IH].
  intros Hin. destruct (mapi_from_ids f g l Hf _ _ Hin) as [j [Hj E]].
  rewrite Hf in E. apply Hg in E. lia.
Qed.

Lemma holeId_inj (s : State) (i j : Z) : holeId s i = holeId s j -> i = j.
Proof.
  unfold holeId. intros H. apply name_number_inj in H. lia.
Qed.

Lemma holesBullets_ids (s : State) (a : string) :
  In a (map id (holesBullets s)) ->
  exists j : Z, (0 <= j < currentHoleCount s)%Z /\ a = holeId s j.
Proof.
  unfold holesBullets, mapi. intros H.
  apply (mapi_from_ids _ (holeId s)) in H; [ | intros b i; reflexivity].
  unfold currentHoleCount, holesBullets, mapi. rewrite mapi_from_length.
  exact H.
Qed.

Lemma holesBullets_NoDup (s : State) : NoDup (map id (holesBullets s)).
Proof.
  unfold holesBullets, mapi.
  apply (mapi_from_NoDup _ (holeId s));
    [intros b i; reflexivity | apply holeId_inj].
Qed.

Lemma holesBullets_numberedBelow (s : State) :
  Forall (numberedBelow (objCount s + currentHoleCount s)) (holesBullets s).
Proof.
  apply Forall_forall. intros h Hh.
  assert (Hk : viewType h = hole).
  { unfold holesBullets, mapi in Hh.
    eapply mapi_from_viewType in Hh; [exact Hh | ].
    intros b i. reflexivity. }
  destruct (holesBullets_ids s (id h)) as [j [Hj E]].
  { apply in_map. exact Hh. }
  exists (objCount s + j)%Z. split; [lia | ]. rewrite Hk. exact E.
Qed.

Lemma insert_numbered (n : Z) (l1 l2 : list Body) (x : Body) :
  NoDup (map id (l1 ++ l2)) -> Forall (numberedBelow n) (l1 ++ l2) ->
  id x = (ViewType_name (viewType x) ++ Num.toString n)%string ->
  NoDup (map id (l1 ++ x :: l2))
  /\ Forall (numberedBelow (n + 1)) (l1 ++ x :: l2).
Proof.
  intros Hnd Hall Hx. split.
  - apply NoDup_ids_insert; [exact Hnd | ].
    apply (@fresh_id n n); [exact Hall | lia | exact Hx].
  - apply Forall_app in Hall. destruct Hall as [H1 H2].
    apply Forall_app. split.
    + eapply Forall_impl; [ | exact H1].
      intros b. apply numberedBelow_mono. lia.
    + apply Forall_cons.
      * exists n. split; [lia | exact Hx].
      * eapply Forall_impl; [ | exact H2].
        intros b. apply numberedBelow_mono. lia.
Qed.

Lemma Forall_filter_moved (P : Body -> Prop) (p : Body -> bool) (l : list Body) :
  (forall b, P b -> P (moveBody b)) ->
  Forall P l -> Forall P (map moveBody (filter p l)).
Proof.
  intros HP H. apply Forall_forall. intros b' Hb'.
  apply in_map_iff in Hb'. destruct Hb' as [b [<- Hb]].
  apply filter_In in Hb. rewrite Forall_forall in H. apply HP. apply H. tauto.
Qed.

Lemma tickMoved_distinct (s : State) (elapsed : number) :
  distinctInFlight s -> distinctInFlight (tickMoved s elapsed).
Proof.
  unfold distinctInFlight, inFlight, tickMoved. cbv zeta.
  cbn [bullets holes ufo objCount]. intros [Hnd Hall]. split.
  - apply (@NoDup_ids_thin (bullets s) (holes s) (ufo s)); [exact Hnd | | | | ].
    + rewrite map_id_moveBody. apply kept_ids_distinct.
      rewrite !map_app in Hnd. apply NoDup_app_remove_r in Hnd. exact Hnd.
    + intros a. rewrite map_id_moveBody. apply kept_ids_from.
    + rewrite map_id_moveBody. apply kept_ids_distinct.
      rewrite !map_app in Hnd. apply NoDup_app_remove_l in Hnd.
      apply NoDup_app_remove_l in Hnd. exact Hnd.
    + intros a. rewrite map_id_moveBody. apply kept_ids_from.
  - apply Forall_app in Hall. destruct Hall as [HB Hall].
    apply Forall_app in Hall. destruct Hall as [HH HU].
    apply Forall_app. split; [ | apply Forall_app; split].
    + apply Forall_filter_moved; [intros b Hb; exact Hb | exact HB].
    + exact HH.
    + apply Forall_filter_moved; [intros b Hb; exact Hb | exact HU].
Qed.

Lemma handleCollisions_distinct (s : State) :
  distinctInFlight s -> distinctInFlight (handleCollisions s).
Proof.
  unfold distinctInFlight, inFlight, handleCollisions.
  cbn [bullets holes ufo objCount]. intros [Hnd Hall].
  pose proof (currentHoleCount_nonneg s) as Hc.
  assert (HndB : NoDup (map id (bullets s))).
  { rewrite !map_app in Hnd. apply NoDup_app_remove_r in Hnd. exact Hnd. }
  assert (HndU : NoDup (map id (ufo s))).
  { rewrite !map_app in Hnd. apply NoDup_app_remove_l in Hnd.
    apply NoDup_app_remove_l in Hnd. exact Hnd. }
  split.
  - apply (@NoDup_ids_thin (bullets s) (holes s ++ holesBullets s) (ufo s)).
    + apply NoDup_ids_extend; [exact Hnd | apply holesBullets_NoDup | ].
      intros a Ha Hin. apply holesBullets_ids in Ha.
      destruct Ha as [j [Hj ->]]. apply in_map_iff in Hin.
      destruct Hin as [b [E Hb]]. rewrite Forall_forall in Hall.
      destruct (Hall b Hb) as [k [Hk Eb]]. rewrite Eb in E.
      unfold holeId in E. apply name_number_inj in E. lia.
    + unfold cut, except. do 3 apply kept_ids_distinct. exact HndB.
    + intros a Ha. unfold cut, except in Ha.
      do 3 apply kept_ids_from in Ha. exact Ha.
    + unfold remainingUfos. apply kept_ids_distinct. exact HndU.
    + intros a Ha. unfold remainingUfos in Ha.
      apply kept_ids_from in Ha. exact Ha.
  - apply Forall_app in Hall. destruct Hall as [HB Hall].
    apply Forall_app in Hall. destruct Hall as [HH HU].
    assert (Hup : forall l, Forall (numberedBelow (objCount s)) l ->
                  Forall (numberedBelow (objCount s + currentHoleCount s)) l).
    { intros l Hl. eapply Forall_impl; [ | exact Hl].
      intros b. apply numberedBelow_mono. lia. }
    apply Forall_app. split; [ | apply Forall_app; split].
    + apply Hup. unfold cut, except.
      do 3 apply Forall_filter_keep. exact HB.
    + apply Forall_app. split; [apply Hup; exact HH | ].
      apply holesBullets_numberedBelow.
    + apply Hup. unfold remainingUfos. apply Forall_filter_keep. exact HU.
Qed.

(** X24.  In every reachable state the bullets, the holes and the UFOs have
    pairwise distinct ids, and each id is the name of the view type of its
    body followed by a number below the object counter: removing by id, as
    collision handling does, removes the body that was meant. *)
Theorem ids_in_flight_are_distinct (hi : Z) (seed : Q) (s : State) :
  reachable hi seed s ->
  NoDup (map id (bullets s ++ holes s ++ ufo s))
  /\ Forall (numberedBelow (objCount s)) (bullets s ++ holes s ++ ufo s).
Proof.
  fold (inFlight s). fold (distinctInFlight s).
  induction 1 as [ | s s' e Hs IH Hr].
  - split; [constructor | constructor].
  - reducer_cases Hr; try exact IH.
    + split; [constructor | constructor].
    + split; [constructor | constructor].
    + destruct IH as [Hnd Hall].
      unfold distinctInFlight, inFlight, withPlayerBullet.
      cbn [bullets holes ufo objCount]. rewrite <- app_assoc.
      apply insert_numbered; [exact Hnd | exact Hall | reflexivity].
    + destruct IH as [Hnd Hall].
      unfold distinctInFlight, inFlight, withAlienBullet.
      cbn [bullets holes ufo objCount]. rewrite <- app_assoc.
      apply insert_numbered; [exact Hnd | exact Hall | reflexivity].
    + destruct IH as [Hnd Hall].
      unfold distinctInFlight, inFlight, withUfo.
      cbn [bullets holes ufo objCount]. rewrite !app_assoc.
      unfold inFlight in Hnd, Hall. rewrite !app_assoc in Hnd, Hall.
      rewrite <- (app_nil_r ((bullets s ++ holes s) ++ ufo s)) in Hnd, Hall.
      apply insert_numbered; [exact Hnd | exact Hall | reflexivity].
    + unfold tick. apply handleCollisions_distinct.
      apply tickMoved_distinct. exact IH.
Qed.

Lemma ids_in_flight_are_distinct_witness :
  reachable 0 (1 # 2) bulletAtHole
  /\ NoDup (map id (bullets bulletAtHole ++ holes bulletAtHole
                    ++ ufo bulletAtHole))
  /\ Forall (numberedBelow (objCount bulletAtHole))
       (bullets bulletAtHole ++ holes bulletAtHole ++ ufo bulletAtHole).
Proof.
  assert (H : reachable 0 (1 # 2) bulletAtHole).
  { apply orElse_reachable; [ | exact newGame_reachable].
    intros s0 H0. repeat reach_by. }
  split; [exact H | ].
  exact (@ids_in_flight_are_distinct _ _ _ H).
Defined.

(** ** The alien's shot *)
(** X25.  While the game is on, [AlienShoot] that returns a state has added
    one alien bullet at the end of the bullets: it is centred under an
    alien of the formation, with its top on the bottom edge of that alien,
    and goes down five units a tick.  The formation, the ship and the
    score are the same, the object counter is one more, and the generator
    has stepped once. *)
Theorem alien_shoots_from_the_formation (s s' : State) :
  bodies (aliens s) <> [] -> gameOver s = false ->
  reduceState s AlienShoot = Ok s' ->
  exists attacker b : Body,
    In attacker (bodies (aliens s))
    /\ bullets s' = bullets s ++ [b]
    /\ viewType b = bulletAlien /\ dims b = CONST.BULLET.DIMS
    /\ (Vec.x (pos b) + 3 == Vec.x (pos attacker) + width (dims attacker) / 2)%Q
    /\ (Vec.y (pos b) == Vec.y (pos attacker) + height (dims attacker))%Q
    /\ vel b = Vec.new 0 5 /\ acc b = Vec.Zero
    /\ aliens s' = aliens s /\ ship s' = ship s /\ score s' = score s
    /\ objCount s' = (objCount s + 1)%Z
    /\ rng s' = RNG.next (rng s).
Proof.
  intros Hne Hgo Hr. apply reduceState_cases in Hr.
  destruct Hr as [[H _] | [[_ [H _]] | [[_ [_ [H _]]] | [_ [_ H]]]]];
    [contradiction | discriminate | congruence | ].
  destruct H as [[d [H _]] | [[H _] | [[H _] | [[_ H] | [[H _] | [t [H _]]]]]]];
    try discriminate.
  destruct H as [attacker [Hatt ->]].
  exists attacker, (alienBullet s attacker).
  split; [exact Hatt | ]. split; [reflexivity | ].
  split; [reflexivity | ]. split; [reflexivity | ].
  split.
  { unfold alienBullet, createBody. cbn [pos Vec.add Vec.x Vec.y].
    rewrite add_eq. cbn [Vec.x]. rewrite sub_eq, !div_eq.
    unfold CONST.BULLET.DIMS. cbn [width]. field. }
  split.
  { unfold alienBullet, createBody. cbn [pos Vec.add Vec.x Vec.y].
    rewrite add_eq. reflexivity. }
  repeat split; reflexivity.
Qed.

Lemma alien_shoots_from_the_formation_witness :
  let s' := orElse (reduceState newGame AlienShoot) newGame in
  bodies (aliens newGame) <> [] /\ gameOver newGame = false
  /\ reduceState newGame AlienShoot = Ok s'
  /\ exists attacker b : Body,
       In attacker (bodies (aliens newGame))
       /\ bullets s' = bullets newGame ++ [b]
       /\ viewType b = bulletAlien /\ dims b = CONST.BULLET.DIMS
       /\ (Vec.x (pos b) + 3
           == Vec.x (pos attacker) + width (dims attacker) / 2)%Q
       /\ (Vec.y (pos b) == Vec.y (pos attacker) + height (dims attacker))%Q
       /\ vel b = Vec.new 0 5 /\ acc b = Vec.Zero
       /\ aliens s' = aliens newGame /\ ship s' = ship newGame
       /\ score s' = score newGame
       /\ objCount s' = (objCount newGame + 1)%Z
       /\ rng s' = RNG.next (rng newGame).
Proof.
  intros s'.
  assert (H1 : bodies (aliens newGame) <> []) by (vm_compute; discriminate).
  assert (H2 : gameOver newGame = false) by reflexivity.
  assert (H3 : reduceState newGame AlienShoot = Ok s')
    by (vm_compute; reflexivity).
  split; [exact H1 | ]. split; [exact H2 | ]. split; [exact H3 | ].
  exact (@alien_shoots_from_the_formation newGame s' H1 H2 H3).
Defined.

(** ** The ship at the wall *)
Lemma stopBody_moveBody_pos (o : Body) :
  (Vec.x (pos (stopBody (moveBody o))) == Vec.x (pos o) - Vec.x (acc o))%Q
  /\ (Vec.y (pos (stopBody (moveBody o))) == Vec.y (pos o) - Vec.y (acc o))%Q.
Proof.
  unfold stopBody, moveBody, Vec.sub, Vec.add, Vec.scale.
  cbn [pos vel acc Vec.x Vec.y].
  split.
  - rewrite add_eq, mul_eq, !add_eq. ring.
  - rewrite add_eq, mul_eq, !add_eq. ring.
Qed.

(** X26.  The ship rebounds at the wall: when a tick moves a ship without
    acceleration from inside the bounds to outside, the tick that follows
    it, with no other event between the two, puts the ship back where it
    was and stops it. *)
Theorem ship_rebounds_at_the_wall (s : State) (t t' : number) :
  inBounds (ship s) = true -> inBounds (moveBody (ship s)) = false ->
  sameVec (acc (ship s)) Vec.Zero ->
  sameVec (pos (ship (tick (tick s t) t'))) (pos (ship s))
  /\ vel (ship (tick (tick s t) t')) = Vec.Zero
  /\ pos (ship (tick s t)) = Vec.add (pos (ship s)) (vel (ship s)).
Proof.
  intros Hin Hout [Hx Hy].
  unfold tick, handleCollisions. cbn [ship].
  unfold tickMoved at 1 3. cbn [ship].
  unfold tickMoved. cbn [ship]. rewrite Hin, Hout.
  destruct (stopBody_moveBody_pos (ship s)) as [Ex Ey].
  split; [ | split; reflexivity].
  split.
  - rewrite Ex, Hx. simpl. ring.
  - rewrite Ey, Hy. simpl. ring.
Qed.

Lemma ship_rebounds_at_the_wall_witness :
  let s := shipAtTheWall in
  inBounds (ship s) = true /\ inBounds (moveBody (ship s)) = false
  /\ sameVec (acc (ship s)) Vec.Zero
  /\ sameVec (pos (ship (tick (tick s 92) 93))) (pos (ship s))
  /\ vel (ship (tick (tick s 92) 93)) = Vec.Zero
  /\ pos (ship (tick s 92)) = Vec.add (pos (ship s)) (vel (ship s)).
Proof.
  intros s.
  assert (H1 : inBounds (ship s) = true) by (vm_compute; reflexivity).
  assert (H2 : inBounds (moveBody (ship s)) = false)
    by (vm_compute; reflexivity).
  assert (H3 : sameVec (acc (ship s)) Vec.Zero)
    by (split; vm_compute; reflexivity).
  split; [exact H1 | ]. split; [exact H2 | ]. split; [exact H3 | ].
  exact (@ship_rebounds_at_the_wall s 92 93 H1 H2 H3).
Defined.







(** ** Bullets that meet *)
Lemma bodiesCollided_sym (a b : Body) :
  bodiesCollided (a, b) = bodiesCollided (b, a).
Proof.
  unfold bodiesCollided.
  destruct (Vec.x (pos a) + width (dims a) >=? Vec.x (pos b))%js,
           (Vec.x (pos a) <=? Vec.x (pos b) + width (dims b))%js,
           (Vec.y (pos a) + height (dims a) >=? Vec.y (pos b))%js,
           (Vec.y (pos a) <=? Vec.y (pos b) + height (dims b))%js;
    reflexivity.
Qed.

Lemma sameId_sym (a b : Body) : sameId a b = sameId b a.
Proof. apply String.eqb_sym. Qed.

Lemma expiredBulletsWithBullets_In (s : State) (b1 b2 : Body) :
  In b1 (bullets s) -> In b2 (bullets s) -> sameId b1 b2 = false ->
  bodiesCollided (b1, b2) = true ->
  In b1 (expiredBulletsWithBullets s).
Proof.
  intros H1 H2 Hid Hc. unfold expiredBulletsWithBullets.
  apply in_map_iff. exists (b1, b2). split; [reflexivity | ].
  apply filter_In. split.
  - apply collidedBodies_In. tauto.
  - unfold not_. cbn [fst snd]. rewrite Hid. reflexivity.
Qed.

(** X28.  Two bullets with different ids that overlap expire both:
    collision handling takes each of them out of the bullets and puts each
    of them in [exit]. *)
Theorem crossing_bullets_expire_both (s : State) (b1 b2 : Body) :
  In b1 (bullets s) -> In b2 (bullets s) -> sameId b1 b2 = false ->
  bodiesCollided (b1, b2) = true ->
  ~ In b1 (bullets (handleCollisions s))
  /\ ~ In b2 (bullets (handleCollisions s))
  /\ In (ExitBody b1) (exit (handleCollisions s))
  /\ In (ExitBody b2) (exit (handleCollisions s)).
Proof.
  intros H1 H2 Hid Hc.
  assert (E1 : In b1 (expiredBulletsWithBullets s)).
  { exact (@expiredBulletsWithBullets_In s b1 b2 H1 H2 Hid Hc). }
  assert (E2 : In b2 (expiredBulletsWithBullets s)).
  { apply (@expiredBulletsWithBullets_In s b2 b1 H2 H1).
    - rewrite sameId_sym. exact Hid.
    - rewrite bodiesCollided_sym. exact Hc. }
  assert (X : forall b, In b (expiredBulletsWithBullets s) ->
                        In b (expiredBullets s)).
  { intros b Hb. unfold expiredBullets. rewrite !in_app_iff. tauto. }
  split; [ | split; [ | split]].
  - unfold handleCollisions. cbn [bullets].
    exact (@cut_removes _ _ b1 b1 E1 (sameId_refl b1)).
  - unfold handleCollisions. cbn [bullets].
    exact (@cut_removes _ _ b2 b2 E2 (sameId_refl b2)).
  - apply expiredBullets_exit. apply X. exact E1.
  - apply expiredBullets_exit. apply X. exact E2.
Qed.

Lemma crossing_bullets_expire_both_witness :
  let s := moved bulletsAboutToMeet in
  let b1 := nth 0 (bullets s) createShip in
  let b2 := nth 1 (bullets s) createShip in
  In b1 (bullets s) /\ In b2 (bullets s) /\ sameId b1 b2 = false
  /\ bodiesCollided (b1, b2) = true
  /\ ~ In b1 (bullets (handleCollisions s))
  /\ ~ In b2 (bullets (handleCollisions s))
  /\ In (ExitBody b1) (exit (handleCollisions s))
  /\ In (ExitBody b2) (exit (handleCollisions s)).
Proof.
  intros s b1 b2.
  assert (H1 : In b1 (bullets s)) by by_nth.
  assert (H2 : In b2 (bullets s)) by by_nth.
  assert (H3 : sameId b1 b2 = false) by (vm_compute; reflexivity).
  assert (H4 : bodiesCollided (b1, b2) = true) by (vm_compute; reflexivity).
  split; [exact H1 | ]. split; [exact H2 | ]. split; [exact H3 | ].
  split; [exact H4 | ].
  exact (@crossing_bullets_expire_both s b1 b2 H1 H2 H3 H4).
Defined.

(** ** How a tick ends the game *)
Lemma filter_nonempty (A : Type) (p : A -> bool) (l : list A) :
  (0 <? List.length (filter p l))%nat = true
  <-> exists x, In x l /\ p x = true.
Proof.
  rewrite Nat.ltb_lt. split.
  - intros H. destruct (filter p l) as [ | x l'] eqn:E; [simpl in H; lia | ].
    exists x. apply filter_In. rewrite E. left. reflexivity.
  - intros [x Hx]. apply filter_In in Hx.
    destruct (filter p l); [contradiction | simpl; lia].
Qed.

(** X29.  A tick ends the game exactly when an alien was out of the bounds
    of the canvas before the move, or a bullet that was in bounds overlaps
    the ship after the move. *)
Theorem tick_ends_the_game_iff (s : State) (t : number) :
  gameOver (tick s t) = true
  <-> (exists a, In a (bodies (aliens s)) /\ inBounds a = false)
      \/ (exists b, In b (bullets s) /\ inBounds b = true
                    /\ bodiesCollided (ship (tick s t), moveBody b) = true).
Proof.
  unfold tick, handleCollisions. cbn [gameOver ship].
  rewrite orb_true_iff. unfold shipCollided. rewrite filter_nonempty.
  unfold tickMoved at 1. cbn [gameOver]. rewrite filter_nonempty.
  split; (intros [H | H]; [left | right]).
  - destruct H as [a [Ha Hn]]. exists a. split; [exact Ha | ].
    unfold not_ in Hn. apply negb_true_iff. exact Hn.
  - destruct H as [b' [Hb' Hc]].
    unfold tickMoved in Hb' at 1. cbn [bullets] in Hb'.
    apply in_map_iff in Hb'. destruct Hb' as [b [<- Hb]].
    apply filter_In in Hb. exists b. tauto.
  - destruct H as [a [Ha Hn]]. exists a. split; [exact Ha | ].
    unfold not_. rewrite Hn. reflexivity.
  - destruct H as [b [Hb [Hin Hc]]]. exists (moveBody b).
    split; [ | exact Hc].
    unfold tickMoved at 1. cbn [bullets]. apply in_map.
    apply filter_In. tauto.
Qed.

(** ** The ids of the formation *)
(** The names that one view type gives to distinct numbers are distinct. *)
Lemma numbered_names_distinct (v : ViewType) (ns : list nat) :
  NoDup ns ->
  NoDup (map (fun i => (ViewType_name v ++ Num.toString (Z.of_nat i))%string)
           ns).
Proof.
  induction ns as [ | n ns IH]; cbn [map]; intros Hnd; [constructor | ].
  apply NoDup_cons_iff in Hnd. destruct Hnd as [Hn Hnd].
  apply NoDup_cons; [ | exact (IH Hnd)].
  intros H. apply in_map_iff in H. destruct H as [k [E Hk]].
  apply name_number_inj in E. destruct E as [_ E].
  apply Nat2Z.inj in E. subst k. contradiction.
Qed.

Lemma createAliens_ids (alienAcc : number) :
  map id (bodies (createAliens alienAcc))
  = map (fun i => (ViewType_name alien ++ Num.toString (Z.of_nat i))%string)
      (seq 0 24).
Proof.
  unfold createAliens. cbv zeta. cbn [bodies]. unfold tabulate.
  rewrite map_map. reflexivity.
Qed.

Lemma createAliens_NoDup (alienAcc : number) :
  NoDup (map id (bodies (createAliens alienAcc))).
Proof.
  rewrite createAliens_ids. apply numbered_names_distinct. apply seq_NoDup.
Qed.

Lemma createAliens_ofTheFormation (alienAcc : number) :
  Forall ofTheFormation (bodies (createAliens alienAcc)).
Proof.
  unfold createAliens. cbv zeta. cbn [bodies]. unfold tabulate.
  apply Forall_forall. intros a Ha. apply in_map_iff in Ha.
  destruct Ha as [i [<- Hi]]. apply in_seq in Hi.
  split; [reflexivity | ]. split; [reflexivity | ].
  exists (Z.of_nat i). split; [ | reflexivity].
  change (Z.to_nat (CONST.ALIEN.ROWS * CONST.ALIEN.COLS)) with 24%nat in Hi.
  lia.
Qed.

Lemma moveAliens_map_id (a : AliensInfo) :
  map id (bodies (moveAliens a)) = map id (bodies a).
Proof.
  unfold moveAliens. cbv zeta.
  match goal with
  | |- context [if ?c then map shiftAlienDown _ else _] => destruct c
  end; cbn [bodies]; rewrite !map_map; reflexivity.
Qed.

Lemma moveAliens_ofTheFormation (a : AliensInfo) :
  Forall ofTheFormation (bodies a) ->
  Forall ofTheFormation (bodies (moveAliens a)).
Proof.
  rewrite !Forall_forall. intros H b' Hb'.
  apply moveAliens_ids in Hb'. destruct Hb' as [b [Hb [Ei [Ev Ed]]]].
  destruct (H b Hb) as [Hv [Hd [k [Hk Hid]]]].
  split; [congruence | ]. split; [congruence | ].
  exists k. split; [exact Hk | congruence].
Qed.

Lemma reachable_formation (hi : Z) (seed : Q) (s : State) :
  reachable hi seed s ->
  NoDup (map id (bodies (aliens s)))
  /\ Forall ofTheFormation (bodies (aliens s)).
Proof.
  induction 1 as [ | s s' e Hs IH Hr].
  - split; [apply createAliens_NoDup | apply createAliens_ofTheFormation].
  - reducer_cases Hr; try exact IH.
    + split; [apply createAliens_NoDup | apply createAliens_ofTheFormation].
    + split; [apply createAliens_NoDup | apply createAliens_ofTheFormation].
    + destruct IH as [Hnd Hall].
      unfold tick, handleCollisions. cbn [aliens bodies].
      unfold remainingAliens. split.
      * apply kept_ids_distinct. unfold tickMoved. cbn [aliens].
        rewrite moveAliens_map_id. exact Hnd.
      * apply Forall_filter_keep. unfold tickMoved. cbn [aliens].
        apply moveAliens_ofTheFormation. exact Hall.
Qed.

(** X30.  In every reachable state the aliens have pairwise distinct ids,
    each alien has the view type and the size of an alien and an id
    "alien" followed by a number from 0 to 23, and there are at most 24 of
    them. *)
Theorem aliens_keep_their_ids (hi : Z) (seed : Q) (s : State) :
  reachable hi seed s ->
  NoDup (map id (bodies (aliens s)))
  /\ Forall ofTheFormation (bodies (aliens s))
  /\ (List.length (bodies (aliens s)) <= 24)%nat.
Proof.
  intros Hs. destruct (@reachable_formation _ _ _ Hs) as [Hnd Hall].
  split; [exact Hnd | ]. split; [exact Hall | ].
  assert (Hincl : incl (map id (bodies (aliens s)))
            (map (fun i => (ViewType_name alien
                            ++ Num.toString (Z.of_nat i))%string)
               (seq 0 24))).
  { intros x Hx. apply in_map_iff in Hx. destruct Hx as [a [<- Ha]].
    rewrite Forall_forall in Hall. destruct (Hall a Ha) as [_ [_ [k [Hk ->]]]].
    apply in_map_iff. exists (Z.to_nat k). split.
    - rewrite Z2Nat.id by lia. reflexivity.
    - apply in_seq. lia. }
  pose proof (NoDup_incl_length Hnd Hincl) as L.
  rewrite !length_map, length_seq in L. exact L.
Qed.

Lemma aliens_keep_their_ids_witness :
  reachable 0 (1 # 2) firstKill
  /\ NoDup (map id (bodies (aliens firstKill)))
  /\ Forall ofTheFormation (bodies (aliens firstKill))
  /\ (List.length (bodies (aliens firstKill)) <= 24)%nat.
Proof.
  split; [exact firstKill_reachable | ].
  exact (@aliens_keep_their_ids _ _ _ firstKill_reachable).
Defined.
